(** * Verification of the excedencia calculator adapter (src/src/common/calculadora.rs)

    A shallow embedding of the error-salvage extractor, the tolerant field
    decoders, the request shaping / response reshaping and the outer tool
    handler of [calculadora.rs]. Rust [&str]/[String] values are byte strings
    and are modelled as Stdlib [string] (a list of 8-bit [ascii]); byte offsets
    returned by [str::find] are positions in that list. *)

From Stdlib Require Import String Ascii ZArith List Bool Lia.
From Stdlib Require Import Floats.SpecFloat.
Import ListNotations.
Open Scope string_scope.
Set Warnings "-register-all".

(* ------------------------------------------------------------------ *)
(** ** Rust string primitives *)

Module RStr.

(** The double quote, written as a decimal code so that no literal below
    needs an escaped quote. *)
Definition dquote : ascii := "034"%char.
Definition bslash : ascii := "092"%char.

(** [dq s] replaces every backtick of [s] by a double quote: it lets the
    Rust raw literals such as [r#"{"errors":"#] be written as
    [dq "{`errors`:"]. *)
Fixpoint dq (s : string) : string :=
  match s with
  | EmptyString => EmptyString
  | String c s' =>
      String (if Ascii.eqb c "`"%char then dquote else c) (dq s')
  end.

(** [str::find]: byte offset of the first occurrence of [pat] in [s]. *)
Fixpoint find (pat s : string) : option nat :=
  if prefix pat s then Some 0
  else match s with
       | EmptyString => None
       | String _ s' => option_map S (find pat s')
       end.

(** [str::contains]. *)
Definition contains (s pat : string) : bool :=
  match find pat s with Some _ => true | None => false end.

(** [&s[i..]]. *)
Fixpoint drop (i : nat) (s : string) : string :=
  match i, s with
  | O, _ => s
  | S i', String _ s' => drop i' s'
  | S _, EmptyString => EmptyString
  end.

(** [&s[i..j]]. *)
Definition slice (i j : nat) (s : string) : string := substring i (j - i) s.

(** [s.split(c)], collected into a [Vec<&str>]. *)
Fixpoint split (c : ascii) (s : string) : list string :=
  match s with
  | EmptyString => [EmptyString]
  | String x s' =>
      let rest := split c s' in
      if Ascii.eqb x c then EmptyString :: rest
      else match rest with
           | r :: rs => String x r :: rs
           | [] => [String x EmptyString]
           end
  end.

(** [s.is_empty()]. *)
Definition is_empty (s : string) : bool :=
  match s with EmptyString => true | _ => false end.

(** [str::to_lowercase] on bytes: ASCII letters are lowered, other bytes
    are kept. Non-ASCII code points are also lowered by Rust, but none of
    them lowers to a letter of "true" or "false" (the only use below), so
    the comparison made by the code has the same outcome. *)
Definition lower (c : ascii) : ascii :=
  let n := nat_of_ascii c in
  if (Nat.leb 65 n && Nat.leb n 90)%bool then ascii_of_nat (n + 32)%nat else c.

Fixpoint to_lowercase (s : string) : string :=
  match s with
  | EmptyString => EmptyString
  | String c s' => String (lower c) (to_lowercase s')
  end.

End RStr.

Import RStr.

(** Option bind, used by the decoders below. *)
Notation "'let?' x := e 'in' k" :=
  (match e with Some x => k | None => None end)
  (at level 200, x pattern, e at level 100, k at level 200).

(* ------------------------------------------------------------------ *)
(** ** The validation error structures (lines 17-34) *)

Record ValidationError := { message : string; path : string }.
Record ValidationErrorSource := { errors : list ValidationError }.
Record ValidationErrorDetails := { source : ValidationErrorSource; error_type : string }.

(* ------------------------------------------------------------------ *)
(** ** [serde_json::from_str::<ValidationErrorDetails>]

    serde_json reads the text once, syntax-checking every value (values of
    unknown fields are skipped by [ignore_value], which checks syntax only,
    with no nesting limit), and builds the typed value from the fields it
    knows. The embedding does the same in two steps: [parse_value] reads a
    JSON text into a tree [jtext] (string contents kept raw, as written
    between the quotes), then [de_details] builds the typed value. The text
    decodes iff it is one syntactically valid JSON value, surrounded only by
    whitespace, whose tree [de_details] accepts. *)

Module Json.

Inductive jtext : Type :=
| TNull
| TBool (b : bool)
| TNum (lexeme : string)
| TStr (raw : string)
| TArr (items : list jtext)
| TObj (members : list (string * jtext)).

Definition is_ws (c : ascii) : bool :=
  Ascii.eqb c " "%char || Ascii.eqb c "009"%char
  || Ascii.eqb c "010"%char || Ascii.eqb c "013"%char.

Fixpoint skip_ws (s : string) : string :=
  match s with
  | String c s' => if is_ws c then skip_ws s' else s
  | EmptyString => EmptyString
  end.

Definition is_digit (c : ascii) : bool :=
  let n := nat_of_ascii c in (Nat.leb 48 n && Nat.leb n 57)%bool.

Definition is_hex (c : ascii) : bool :=
  let n := nat_of_ascii c in
  (is_digit c || (Nat.leb 65 n && Nat.leb n 70) || (Nat.leb 97 n && Nat.leb n 102))%bool.

(** A simple escape letter after a backslash: quote, backslash, slash, b, f, n, r or t. *)
Definition simple_escape (e : ascii) : option ascii :=
  if Ascii.eqb e dquote then Some dquote
  else if Ascii.eqb e bslash then Some bslash
  else if Ascii.eqb e "/"%char then Some "/"%char
  else if Ascii.eqb e "b"%char then Some "008"%char
  else if Ascii.eqb e "f"%char then Some "012"%char
  else if Ascii.eqb e "n"%char then Some "010"%char
  else if Ascii.eqb e "r"%char then Some "013"%char
  else if Ascii.eqb e "t"%char then Some "009"%char
  else None.

(** The body of a string literal, after its opening quote: the raw
    contents and the text after the closing quote. Escapes are checked
    ([\u] needs four hex digits), raw control characters are refused. *)
Fixpoint lex_string (s : string) : option (string * string) :=
  match s with
  | EmptyString => None
  | String c s' =>
      if Ascii.eqb c dquote then Some (EmptyString, s')
      else if Ascii.eqb c bslash then
        match s' with
        | String "u"%char (String h1 (String h2 (String h3 (String h4 r)))) =>
            if (is_hex h1 && is_hex h2 && is_hex h3 && is_hex h4)%bool then
              match lex_string r with
              | Some (raw, rest) =>
                  Some (String c (String "u"%char (String h1 (String h2
                          (String h3 (String h4 raw))))), rest)
              | None => None
              end
            else None
        | String e r =>
            match simple_escape e with
            | Some _ =>
                match lex_string r with
                | Some (raw, rest) => Some (String c (String e raw), rest)
                | None => None
                end
            | None => None
            end
        | EmptyString => None
        end
      else if Nat.ltb (nat_of_ascii c) 32 then None
      else match lex_string s' with
           | Some (raw, rest) => Some (String c raw, rest)
           | None => None
           end
  end.

(** Digits: the longest run of decimal digits at the start of [s]. *)
Fixpoint lex_digits (s : string) : string * string :=
  match s with
  | String c s' =>
      if is_digit c then let (d, r) := lex_digits s' in (String c d, r)
      else (EmptyString, s)
  | EmptyString => (EmptyString, EmptyString)
  end.

(** A number: [-? (0 | [1-9][0-9]* ) (. [0-9]+)? ([eE] [+-]? [0-9]+)?].
    A leading zero ends the integer part (what follows then fails as
    trailing input, as in serde_json). *)
Definition lex_number (s : string) : option (string * string) :=
  let '(sgn, s1) := match s with
                    | String "-"%char r => ("-", r)
                    | _ => (EmptyString, s)
                    end in
  let int_part :=
    match s1 with
    | String "0"%char r => Some ("0", r)
    | String c _ => if is_digit c then Some (lex_digits s1) else None
    | EmptyString => None
    end in
  match int_part with
  | None => None
  | Some (ip, s2) =>
      let frac :=
        match s2 with
        | String "."%char r =>
            let (d, r') := lex_digits r in
            if is_empty d then None else Some (String "."%char d, r')
        | _ => Some (EmptyString, s2)
        end in
      match frac with
      | None => None
      | Some (fp, s3) =>
          let expo :=
            match s3 with
            | String e r =>
                if (Ascii.eqb e "e"%char || Ascii.eqb e "E"%char)%bool then
                  let '(es, r1) := match r with
                                   | String "+"%char r' => ("+", r')
                                   | String "-"%char r' => ("-", r')
                                   | _ => (EmptyString, r)
                                   end in
                  let (d, r2) := lex_digits r1 in
                  if is_empty d then None else Some (String e (es ++ d), r2)
                else Some (EmptyString, s3)
            | EmptyString => Some (EmptyString, s3)
            end in
          match expo with
          | None => None
          | Some (xp, s4) => Some (sgn ++ ip ++ fp ++ xp, s4)
          end
      end
  end.

(** [lit w s]: [s] starts with the keyword rest [w]; the text after it. *)
Fixpoint lit (w s : string) : option string :=
  match w, s with
  | EmptyString, _ => Some s
  | String a w', String b s' => if Ascii.eqb a b then lit w' s' else None
  | String _ _, EmptyString => None
  end.

(** The value parser. [fuel] bounds the recursion; every call chain
    consumes a character at least every second call, so [2 * length + 2]
    (used by [parse]) never runs out on a text of that length. *)
Fixpoint parse_value (fuel : nat) (s : string) {struct fuel} : option (jtext * string) :=
  match fuel with
  | O => None
  | S f =>
      match skip_ws s with
      | EmptyString => None
      | String c s' =>
          if Ascii.eqb c "n"%char then option_map (fun r => (TNull, r)) (lit "ull" s')
          else if Ascii.eqb c "t"%char then option_map (fun r => (TBool true, r)) (lit "rue" s')
          else if Ascii.eqb c "f"%char then option_map (fun r => (TBool false, r)) (lit "alse" s')
          else if Ascii.eqb c dquote then
            option_map (fun p => (TStr (fst p), snd p)) (lex_string s')
          else if (Ascii.eqb c "-"%char || is_digit c)%bool then
            option_map (fun p => (TNum (fst p), snd p)) (lex_number (String c s'))
          else if Ascii.eqb c "["%char then
            match skip_ws s' with
            | String "]"%char r => Some (TArr [], r)
            | _ => option_map (fun p => (TArr (fst p), snd p)) (parse_elems f s')
            end
          else if Ascii.eqb c "{"%char then
            match skip_ws s' with
            | String "}"%char r => Some (TObj [], r)
            | _ => option_map (fun p => (TObj (fst p), snd p)) (parse_members f s')
            end
          else None
      end
  end
(** Array elements after [[] (or after a comma), up to the closing [\]]. *)
with parse_elems (fuel : nat) (s : string) {struct fuel} : option (list jtext * string) :=
  match fuel with
  | O => None
  | S f =>
      match parse_value f s with
      | None => None
      | Some (v, r) =>
          match skip_ws r with
          | String ","%char r' =>
              option_map (fun p => (v :: fst p, snd p)) (parse_elems f r')
          | String "]"%char r' => Some ([v], r')
          | _ => None
          end
      end
  end
(** Object members after [{] (or after a comma), up to the closing [}]. *)
with parse_members (fuel : nat) (s : string) {struct fuel} : option (list (string * jtext) * string) :=
  match fuel with
  | O => None
  | S f =>
      match skip_ws s with
      | String c s1 =>
          if Ascii.eqb c dquote then
            match lex_string s1 with
            | None => None
            | Some (k, s2) =>
                match skip_ws s2 with
                | String ":"%char s3 =>
                    match parse_value f s3 with
                    | None => None
                    | Some (v, r) =>
                        match skip_ws r with
                        | String ","%char r' =>
                            option_map (fun p => ((k, v) :: fst p, snd p)) (parse_members f r')
                        | String "}"%char r' => Some ([(k, v)], r')
                        | _ => None
                        end
                    end
                | _ => None
                end
            end
          else None
      | EmptyString => None
      end
  end.

Definition parse (s : string) : option jtext :=
  match parse_value (2 * String.length s + 2) s with
  | Some (v, rest) => if is_empty (skip_ws rest) then Some v else None
  | None => None
  end.


Definition hexval (c : ascii) : Z :=
  let n := Z.of_nat (nat_of_ascii c) in
  if (n <=? 57)%Z then (n - 48)%Z
  else if (n <=? 70)%Z then (n - 55)%Z
  else (n - 87)%Z.

Definition hex4 (a b c d : ascii) : Z :=
  (hexval a * 4096 + hexval b * 256 + hexval c * 16 + hexval d)%Z.

Definition byte (z : Z) : ascii := ascii_of_nat (Z.to_nat z).

(** UTF-8 encoding of a code point. *)
Definition utf8 (cp : Z) : string :=
  if (cp <? 128)%Z then String (byte cp) EmptyString
  else if (cp <? 2048)%Z then
    String (byte (192 + cp / 64)) (String (byte (128 + cp mod 64)) EmptyString)
  else if (cp <? 65536)%Z then
    String (byte (224 + cp / 4096))
      (String (byte (128 + (cp / 64) mod 64)) (String (byte (128 + cp mod 64)) EmptyString))
  else
    String (byte (240 + cp / 262144))
      (String (byte (128 + (cp / 4096) mod 64))
        (String (byte (128 + (cp / 64) mod 64)) (String (byte (128 + cp mod 64)) EmptyString))).

(** serde_json's [parse_str]: the raw contents of a string literal decoded
    into a [String]. Surrogate escapes must come as a leading/trailing pair;
    a lone surrogate is an error. *)
Fixpoint decode_raw (s : string) : option string :=
  match s with
  | EmptyString => Some EmptyString
  | String c s' =>
      if Ascii.eqb c bslash then
        match s' with
        | String "u"%char (String h1 (String h2 (String h3 (String h4 r)))) =>
            let n := hex4 h1 h2 h3 h4 in
            if ((55296 <=? n) && (n <? 56320))%Z%bool then
              match r with
              | String b (String "u"%char (String k1 (String k2 (String k3 (String k4 r'))))) =>
                  let n2 := hex4 k1 k2 k3 k4 in
                  if (Ascii.eqb b bslash && (56320 <=? n2)%Z && (n2 <? 57344)%Z)%bool then
                    let? t := decode_raw r' in
                    Some (utf8 (65536 + (n - 55296) * 1024 + (n2 - 56320))%Z ++ t)
                  else None
              | _ => None
              end
            else if ((56320 <=? n) && (n <? 57344))%Z%bool then None
            else let? t := decode_raw r in Some (utf8 n ++ t)
        | String e r =>
            let? x := simple_escape e in
            let? t := decode_raw r in Some (String x t)
        | EmptyString => None
        end
      else let? t := decode_raw s' in Some (String c t)
  end.

Fixpoint map_opt {A B : Type} (f : A -> option B) (l : list A) : option (list B) :=
  match l with
  | [] => Some []
  | x :: l' => let? y := f x in let? ys := map_opt f l' in Some (y :: ys)
  end.

(** A [String] field. *)
Definition de_string (v : jtext) : option string :=
  match v with TStr raw => decode_raw raw | _ => None end.

(** The map loop of a derived [Deserialize]: every key is decoded, the
    values of the fields in [names] are recorded (a second occurrence is
    a duplicate-field error), other members are ignored. *)
Fixpoint collect (names : list string) (ms : list (string * jtext))
    (acc : list (string * jtext)) : option (list (string * jtext)) :=
  match ms with
  | [] => Some acc
  | (rk, v) :: ms' =>
      let? k := decode_raw rk in
      if existsb (String.eqb k) names then
        if existsb (fun p => String.eqb (fst p) k) acc then None
        else collect names ms' (acc ++ [(k, v)])
      else collect names ms' acc
  end.

Definition field (k : string) (fs : list (string * jtext)) : option jtext :=
  option_map snd (List.find (fun p => String.eqb (fst p) k) fs).

(** [ValidationError { message, path }]: from an object (both fields
    required) or from an array of exactly two elements. *)
Definition de_ValidationError (v : jtext) : option ValidationError :=
  match v with
  | TObj ms =>
      let? fs := collect ["message"; "path"] ms [] in
      let? vm := field "message" fs in
      let? vp := field "path" fs in
      let? m := de_string vm in
      let? p := de_string vp in
      Some {| message := m; path := p |}
  | TArr [vm; vp] =>
      let? m := de_string vm in
      let? p := de_string vp in
      Some {| message := m; path := p |}
  | _ => None
  end.

(** [Vec<ValidationError>]: an array only. *)
Definition de_errors (v : jtext) : option (list ValidationError) :=
  match v with TArr l => map_opt de_ValidationError l | _ => None end.

Definition de_Source (v : jtext) : option ValidationErrorSource :=
  match v with
  | TObj ms =>
      let? fs := collect ["errors"] ms [] in
      let? ve := field "errors" fs in
      let? es := de_errors ve in
      Some {| errors := es |}
  | TArr [ve] => let? es := de_errors ve in Some {| errors := es |}
  | _ => None
  end.

(** [ValidationErrorDetails { source, type }]. *)
Definition de_Details (v : jtext) : option ValidationErrorDetails :=
  match v with
  | TObj ms =>
      let? fs := collect ["source"; "type"] ms [] in
      let? vs := field "source" fs in
      let? vt := field "type" fs in
      let? src := de_Source vs in
      let? t := de_string vt in
      Some {| source := src; error_type := t |}
  | TArr [vs; vt] =>
      let? src := de_Source vs in
      let? t := de_string vt in
      Some {| source := src; error_type := t |}
  | _ => None
  end.

End Json.

(** [serde_json::from_str::<ValidationErrorDetails>(s).ok()]. *)
Definition from_str_details (s : string) : option ValidationErrorDetails :=
  let? v := Json.parse s in Json.de_Details v.

(* ------------------------------------------------------------------ *)
(** ** The salvage extractor (lines 347-430) *)

Module Extract.

(** The literals of [manual_extract_errors]. *)
Definition message_key : string := dq "`message`:".
Definition message_open : string := dq "`message`:`".
Definition path_key : string := dq "`path`:".
Definition path_open : string := dq "`path`:`".
Definition quote : string := String dquote EmptyString.
Definition enum_phrase : string := "is not one of".
Definition unknown_path : string := "/input/unknown".

(** One [if line.contains(key) { if let Some(start) = line.find(open) ... }]
    block of the fragment loop: the new value of the variable [cur]. *)
Definition scan_quoted (key open_ line cur : string) : string :=
  if contains line key then
    match find open_ line with
    | Some start =>
        let v_start := start + String.length open_ in
        match find quote (drop v_start line) with
        | Some e => slice v_start (v_start + e) line
        | None => cur
        end
    | None => cur
    end
  else cur.

(** The body of [for line in lines]: the pair [(message, path)]. *)
Definition scan_line (acc : string * string) (line : string) : string * string :=
  let (msg, pth) := acc in
  (scan_quoted message_key message_open line msg,
   scan_quoted path_key path_open line pth).

Definition manual_extract_errors (text : string) : option (list ValidationError) :=
  if contains text enum_phrase then
    let lines := split ","%char text in
    let (msg, pth) := fold_left scan_line lines (EmptyString, EmptyString) in
    if negb (is_empty msg) then
      let pth' := if is_empty pth then unknown_path else pth in
      Some [{| message := msg; path := pth' |}]
    else None
  else None.

(** The three (start, end) marker pairs, in priority order. *)
Definition marker1 : string := dq "{`source`:{`errors`:".
Definition marker2 : string := dq "{`errors`:".
Definition marker3 : string := dq "`errors`:[".
Definition closer_validation : string := dq "`type`:`Validation`}".
Definition closer_bracket : string := "]".

Definition patterns : list (string * string) :=
  [(marker1, closer_validation); (marker2, closer_validation); (marker3, closer_bracket)].

(** The fragment a marker pair delimits in [text], if both are found:
    from the start marker to the end of the first end marker after it. *)
Definition candidate (text : string) (pat : string * string) : option string :=
  let (start_pattern, end_pattern) := pat in
  match find start_pattern text with
  | Some start =>
      let search_from := start + String.length start_pattern in
      match find end_pattern (drop search_from text) with
      | Some relative_end =>
          let end_ := search_from + relative_end + String.length end_pattern in
          Some (slice start end_ text)
      | None => None
      end
  | None => None
  end.

(** The [for (start_pattern, end_pattern) in patterns] loop, followed by
    the final [Self::manual_extract_errors(text)]. *)
Fixpoint extract_loop (text : string) (ps : list (string * string)) : option (list ValidationError) :=
  match ps with
  | [] => manual_extract_errors text
  | pat :: ps' =>
      match candidate text pat with
      | Some json_candidate =>
          match from_str_details json_candidate with
          | Some details => Some (errors (source details))
          | None =>
              match manual_extract_errors text with
              | Some es => Some es
              | None => extract_loop text ps'
              end
          end
      | None => extract_loop text ps'
      end
  end.

Definition extract_json_from_string (text : string) : option (list ValidationError) :=
  extract_loop text patterns.

End Extract.

Import Extract.

(** The part of zen_engine's [EvaluationError] the code observes: its
    [Debug] rendering, its [Display] rendering, and, for the [NodeError]
    variant, the [Debug] rendering of the node error's [source]. *)
Record EvaluationError := {
  ev_debug : string;
  ev_display : string;
  ev_node_source_debug : option string
}.

Definition extract_from_node_error (source_debug : string) : option (list ValidationError) :=
  extract_json_from_string source_debug.

Definition extract_from_error_string (error_str : string) : option (list ValidationError) :=
  extract_json_from_string error_str.

Definition extract_validation_errors (error : EvaluationError) : option (list ValidationError) :=
  match ev_node_source_debug error with
  | Some src =>
      match extract_from_node_error src with
      | Some errs => Some errs
      | None => extract_from_error_string (ev_debug error)
      end
  | None => extract_from_error_string (ev_debug error)
  end.

(* ------------------------------------------------------------------ *)
(** ** [f64]: binary64 values and [str::parse::<f64>] *)

Module F64.

Definition prec : Z := 53.
Definition emax : Z := 1024.

(** An [f64], as the Stdlib specification of IEEE-754 binary64. *)
Definition f64 : Type := spec_float.

(** [n as f64] for an integer [n] (round to nearest, ties to even). *)
Definition of_Z (n : Z) : f64 := binary_normalize prec emax n 0 false.

Definition is_finite (x : f64) : bool :=
  match x with S754_zero _ | S754_finite _ _ _ => true | _ => false end.

(** The binary64 value nearest to [(-1)^neg * n * 10^e], ties to even:
    an exact integer when [e >= 0], else the correctly rounded quotient
    [n / 10^-e], computed by the division core of SpecFloat on arbitrary
    mantissas. *)
Definition of_decimal (neg : bool) (n : Z) (e : Z) : f64 :=
  match n with
  | Zpos _ =>
      if (0 <=? e)%Z then
        match (n * 10 ^ e)%Z with
        | Zpos m => binary_round prec emax neg m 0
        | _ => S754_zero neg
        end
      else
        let '(q, ex, loc) := SFdiv_core_binary prec emax n 0 (10 ^ (- e)) 0 in
        binary_round_aux prec emax neg q ex loc
  | _ => S754_zero neg
  end.

Fixpoint digits_value (acc : Z) (s : string) : Z :=
  match s with
  | EmptyString => acc
  | String c s' => digits_value (acc * 10 + (Z.of_nat (nat_of_ascii c) - 48))%Z s'
  end.

(** [<f64 as FromStr>::from_str], whose grammar is
    [Sign? ( inf | infinity | nan | Number )] with
    [Number ::= ( Digit+ | Digit+ . Digit* | Digit* . Digit+ ) Exp?] and
    [Exp ::= e Sign? Digit+], letters case-insensitive, no whitespace. *)
Definition parse_f64 (s : string) : option f64 :=
  let '(neg, body) := match s with
                      | String "+"%char r => (false, r)
                      | String "-"%char r => (true, r)
                      | _ => (false, s)
                      end in
  let lb := to_lowercase body in
  if (String.eqb lb "inf" || String.eqb lb "infinity")%bool then Some (S754_infinity neg)
  else if String.eqb lb "nan" then Some S754_nan
  else
    let (d1, r1) := Json.lex_digits body in
    let (d2, r2) := match r1 with
                    | String "."%char r => Json.lex_digits r
                    | _ => (EmptyString, r1)
                    end in
    if (is_empty d1 && is_empty d2)%bool then None
    else
      let exp :=
        match r2 with
        | EmptyString => Some 0%Z
        | String e r =>
            if (Ascii.eqb e "e"%char || Ascii.eqb e "E"%char)%bool then
              let '(eneg, r') := match r with
                                 | String "+"%char t => (false, t)
                                 | String "-"%char t => (true, t)
                                 | _ => (false, r)
                                 end in
              let (de, rest) := Json.lex_digits r' in
              if (is_empty de || negb (is_empty rest))%bool then None
              else let x := digits_value 0 de in Some (if eneg then (- x)%Z else x)
            else None
        end in
      match exp with
      | Some x =>
          Some (of_decimal neg (digits_value 0 (d1 ++ d2))
                  (x - Z.of_nat (String.length d2))%Z)
      | None => None
      end.

End F64.

Import F64.

(* ------------------------------------------------------------------ *)
(** ** [serde_json::Value] and the tolerant decoders (lines 75-191) *)

Module Value.

(** [serde_json::Number]: a [u64], a negative [i64] or a finite [f64]. *)
Inductive number := PosInt (u : Z) | NegInt (i : Z) | Float (f : f64).

(** [serde_json::Value]; an [Object] lists its entries in the map's
    iteration order, keys unique (sorted, as in the default [BTreeMap]). *)
Inductive value :=
| Null
| Bool (b : bool)
| Number (n : number)
| Str (s : string)
| Array (l : list value)
| Object (m : list (string * value)).

Definition lookup (k : string) (m : list (string * value)) : option value :=
  option_map snd (List.find (fun p => String.eqb (fst p) k) m).

End Value.

Import Value.

Inductive result (A E : Type) := Ok (a : A) | Err (e : E).
Arguments Ok {A E} a.
Arguments Err {A E} e.

Notation "'let!' x := e 'in' k" :=
  (match e with Ok x => k | Err err => Err err end)
  (at level 200, x pattern, e at level 100, k at level 200).

(** The serde errors the decoders can raise. *)
Inductive de_error :=
| Custom (msg : string)
| InvalidType
| InvalidValue
| InvalidLength
| MissingField (name : string).

(** [deserialize_bool_or_string]: [Value::deserialize_any] calls
    [visit_bool] on a boolean, [visit_string] on a string; every other
    kind of value reaches a visitor method the visitor does not define,
    whose default is an invalid-type error. *)
Definition deserialize_bool_or_string (v : value) : result bool de_error :=
  match v with
  | Bool b => Ok b
  | Str s =>
      let l := to_lowercase s in
      if String.eqb l "true" then Ok true
      else if String.eqb l "false" then Ok false
      else Err (Custom ("invalid boolean string: " ++ s))
  | _ => Err InvalidType
  end.

(** [deserialize_f64_or_string]: [Null] reaches [visit_unit], the three
    kinds of number reach [visit_u64], [visit_i64] and [visit_f64]. *)
Definition deserialize_f64_or_string (v : value) : result (option f64) de_error :=
  match v with
  | Null => Ok None
  | Number (PosInt u) => Ok (Some (of_Z u))
  | Number (NegInt i) => Ok (Some (of_Z i))
  | Number (Float f) => Ok (Some f)
  | Str s =>
      match parse_f64 s with
      | Some f => Ok (Some f)
      | None => Err (Custom ("invalid number string: " ++ s))
      end
  | _ => Err InvalidType
  end.

(* ------------------------------------------------------------------ *)
(** ** Parameter and input structures (lines 196-237) *)

Module Direct.
Record ExcedenciaDirectParams := {
  parentesco : string;
  situacion : string;
  familia_monoparental : bool;
  numero_hijos : option f64
}.
End Direct.

Module Input.
Record ExcedenciaInput := {
  parentesco : string;
  situacion : string;
  familia_monoparental : bool;
  numero_hijos : option f64
}.
End Input.

Record ExcedenciaRequest := { input : Input.ExcedenciaInput }.

(** A [String] field. *)
Definition de_String (v : value) : result string de_error :=
  match v with Str s => Ok s | _ => Err InvalidType end.

(** A field without [#[serde(default)]]: a missing key is a
    missing-field error (for a [deserialize_with] field as well, whatever
    its type). *)
Definition required {A} (k : string) (de : value -> result A de_error)
    (m : list (string * value)) : result A de_error :=
  match lookup k m with
  | Some v => de v
  | None => Err (MissingField k)
  end.

(** A [#[serde(default)]] field: a missing key gives [dflt]. *)
Definition defaulted {A} (k : string) (dflt : A) (de : value -> result A de_error)
    (m : list (string * value)) : result A de_error :=
  match lookup k m with
  | Some v => de v
  | None => Ok dflt
  end.

(** The derived [Deserialize] of [ExcedenciaDirectParams] and of
    [ExcedenciaInput] (same fields, same attributes), from a [Value]: an
    object, whose keys are unique so that the derived map loop amounts to
    one lookup per field, or an array of exactly four elements. When
    several fields are bad, which error is reported is not modelled. *)
Definition de_excedencia_fields (v : value)
    : result (string * string * bool * option f64) de_error :=
  match v with
  | Object m =>
      let! p := required "parentesco" de_String m in
      let! s := required "situacion" de_String m in
      let! f := required "familia_monoparental" deserialize_bool_or_string m in
      let! n := required "numero_hijos" deserialize_f64_or_string m in
      Ok (p, s, f, n)
  | Array [vp; vs; vf; vn] =>
      let! p := de_String vp in
      let! s := de_String vs in
      let! f := deserialize_bool_or_string vf in
      let! n := deserialize_f64_or_string vn in
      Ok (p, s, f, n)
  | Array _ => Err InvalidLength
  | _ => Err InvalidType
  end.

Definition deserialize_ExcedenciaDirectParams (v : value)
    : result Direct.ExcedenciaDirectParams de_error :=
  let! (p, s, f, n) := de_excedencia_fields v in
  Ok {| Direct.parentesco := p; Direct.situacion := s;
        Direct.familia_monoparental := f; Direct.numero_hijos := n |}.

Definition deserialize_ExcedenciaInput (v : value)
    : result Input.ExcedenciaInput de_error :=
  let! (p, s, f, n) := de_excedencia_fields v in
  Ok {| Input.parentesco := p; Input.situacion := s;
        Input.familia_monoparental := f; Input.numero_hijos := n |}.

(** [serde_json::to_value] of an [f64]: a non-finite value becomes [null]. *)
Definition f64_to_value (x : f64) : value :=
  if is_finite x then Number (Float x) else Null.

(** [serde_json::to_value] of an [ExcedenciaInput]: [numero_hijos] is
    skipped when [None]; entries in the map's (sorted) key order. *)
Definition serialize_ExcedenciaInput (i : Input.ExcedenciaInput) : value :=
  Object ([("familia_monoparental", Bool (Input.familia_monoparental i))]
          ++ match Input.numero_hijos i with
             | Some x => [("numero_hijos", f64_to_value x)]
             | None => []
             end
          ++ [("parentesco", Str (Input.parentesco i));
              ("situacion", Str (Input.situacion i))]).

Definition serialize_ExcedenciaRequest (r : ExcedenciaRequest) : value :=
  Object [("input", serialize_ExcedenciaInput (input r))].

(** Lines 475-482: the flat tool parameters shaped into the engine request. *)
Definition shape_request (direct_params : Direct.ExcedenciaDirectParams) : ExcedenciaRequest :=
  {| input := {| Input.parentesco := Direct.parentesco direct_params;
                 Input.situacion := Direct.situacion direct_params;
                 Input.familia_monoparental := Direct.familia_monoparental direct_params;
                 Input.numero_hijos := Direct.numero_hijos direct_params |} |}.

(* ------------------------------------------------------------------ *)
(** ** Output and response structures (lines 239-289) *)

(** [i32] values are the integers in [[-2^31, 2^31)]. *)
Definition i32_in_range (z : Z) : bool :=
  ((-2147483648 <=? z) && (z <=? 2147483647))%Z.

Module Schema.
Record ExcedenciaOutputForSchema := {
  descripcion : string;
  importe_mensual : Z;
  requisitos_adicionales : string;
  supuesto : string;
  tiene_derecho_potencial : bool;
  errores : list string;
  advertencias : list string
}.
End Schema.

Module Internal.
Record ExcedenciaOutput := {
  descripcion : string;
  importe_mensual : Z;
  requisitos_adicionales : string;
  supuesto : string;
  tiene_derecho_potencial : bool;
  errores : list string;
  advertencias : list string
}.
End Internal.

Module Response.
Record ExcedenciaResponse := {
  output : Schema.ExcedenciaOutputForSchema;
  input : option Input.ExcedenciaInput;
  parentesco_valido : option bool
}.
End Response.

(** [serde_json::to_value] of an [i32]. *)
Definition i32_to_value (z : Z) : value :=
  if (z <? 0)%Z then Number (NegInt z) else Number (PosInt z).

(** An [i32] field: an integer in range ([visit_u64] and [visit_i64]
    check it with [i32::try_from]); a float or another kind of value is an
    invalid type, an integer out of range an invalid value. *)
Definition de_i32 (v : value) : result Z de_error :=
  match v with
  | Number (PosInt u) => if i32_in_range u then Ok u else Err InvalidValue
  | Number (NegInt i) => if i32_in_range i then Ok i else Err InvalidValue
  | _ => Err InvalidType
  end.

(** A plain [bool] field. *)
Definition de_bool (v : value) : result bool de_error :=
  match v with Bool b => Ok b | _ => Err InvalidType end.

Fixpoint map_result {A B E} (f : A -> result B E) (l : list A) : result (list B) E :=
  match l with
  | [] => Ok []
  | x :: l' => let! y := f x in let! ys := map_result f l' in Ok (y :: ys)
  end.

(** A [Vec<String>] field: an array of strings. *)
Definition de_strings (v : value) : result (list string) de_error :=
  match v with Array l => map_result de_String l | _ => Err InvalidType end.

(** One element of the derived [visit_seq]: the next array element, or
    the field's default ([Some d]) or a length error when the array ends. *)
Definition seq_next {A} (dflt : option A) (de : value -> result A de_error)
    (l : list value) : result (A * list value) de_error :=
  match l with
  | v :: l' => let! a := de v in Ok (a, l')
  | [] => match dflt with Some d => Ok (d, []) | None => Err InvalidLength end
  end.

(** The derived [Deserialize] of [ExcedenciaOutputForSchema] and of
    [ExcedenciaOutput] (same fields, same attributes):
    [requisitos_adicionales], [errores] and [advertencias] are
    [#[serde(default)]]. *)
Definition de_output_fields (v : value) : result Schema.ExcedenciaOutputForSchema de_error :=
  match v with
  | Object m =>
      let! d := required "descripcion" de_String m in
      let! i := required "importe_mensual" de_i32 m in
      let! r := defaulted "requisitos_adicionales" EmptyString de_String m in
      let! s := required "supuesto" de_String m in
      let! t := required "tiene_derecho_potencial" de_bool m in
      let! e := defaulted "errores" [] de_strings m in
      let! a := defaulted "advertencias" [] de_strings m in
      Ok {| Schema.descripcion := d; Schema.importe_mensual := i;
            Schema.requisitos_adicionales := r; Schema.supuesto := s;
            Schema.tiene_derecho_potencial := t; Schema.errores := e;
            Schema.advertencias := a |}
  | Array l0 =>
      let! (d, l1) := seq_next None de_String l0 in
      let! (i, l2) := seq_next None de_i32 l1 in
      let! (r, l3) := seq_next (Some EmptyString) de_String l2 in
      let! (s, l4) := seq_next None de_String l3 in
      let! (t, l5) := seq_next None de_bool l4 in
      let! (e, l6) := seq_next (Some []) de_strings l5 in
      let! (a, l7) := seq_next (Some []) de_strings l6 in
      match l7 with
      | [] => Ok {| Schema.descripcion := d; Schema.importe_mensual := i;
                    Schema.requisitos_adicionales := r; Schema.supuesto := s;
                    Schema.tiene_derecho_potencial := t; Schema.errores := e;
                    Schema.advertencias := a |}
      | _ => Err InvalidLength
      end
  | _ => Err InvalidType
  end.

Definition deserialize_ExcedenciaOutputForSchema := de_output_fields.

Definition deserialize_ExcedenciaOutput (v : value) : result Internal.ExcedenciaOutput de_error :=
  let! o := de_output_fields v in
  Ok {| Internal.descripcion := Schema.descripcion o;
        Internal.importe_mensual := Schema.importe_mensual o;
        Internal.requisitos_adicionales := Schema.requisitos_adicionales o;
        Internal.supuesto := Schema.supuesto o;
        Internal.tiene_derecho_potencial := Schema.tiene_derecho_potencial o;
        Internal.errores := Schema.errores o;
        Internal.advertencias := Schema.advertencias o |}.

(** [serde_json::to_value(&response.output)]: every field, sorted keys. *)
Definition serialize_ExcedenciaOutputForSchema (o : Schema.ExcedenciaOutputForSchema) : value :=
  Object [("advertencias", Array (map Str (Schema.advertencias o)));
          ("descripcion", Str (Schema.descripcion o));
          ("errores", Array (map Str (Schema.errores o)));
          ("importe_mensual", i32_to_value (Schema.importe_mensual o));
          ("requisitos_adicionales", Str (Schema.requisitos_adicionales o));
          ("supuesto", Str (Schema.supuesto o));
          ("tiene_derecho_potencial", Bool (Schema.tiene_derecho_potencial o))].

(** An [Option<T>] field: [null] is [None], anything else decodes a [T]. *)
Definition de_option {A} (de : value -> result A de_error) (v : value)
    : result (option A) de_error :=
  match v with Null => Ok None | _ => let! a := de v in Ok (Some a) end.

(** The derived [Deserialize] of [ExcedenciaResponse]; [input] and
    [parentesco_valido] are [#[serde(default)]]. *)
Definition deserialize_ExcedenciaResponse (v : value) : result Response.ExcedenciaResponse de_error :=
  match v with
  | Object m =>
      let! o := required "output" deserialize_ExcedenciaOutputForSchema m in
      let! i := defaulted "input" None (de_option deserialize_ExcedenciaInput) m in
      let! p := defaulted "parentesco_valido" None (de_option de_bool) m in
      Ok {| Response.output := o; Response.input := i; Response.parentesco_valido := p |}
  | Array l0 =>
      let! (o, l1) := seq_next None deserialize_ExcedenciaOutputForSchema l0 in
      let! (i, l2) := seq_next (Some None) (de_option deserialize_ExcedenciaInput) l1 in
      let! (p, l3) := seq_next (Some None) (de_option de_bool) l2 in
      match l3 with
      | [] => Ok {| Response.output := o; Response.input := i; Response.parentesco_valido := p |}
      | _ => Err InvalidLength
      end
  | _ => Err InvalidType
  end.

(** Lines 315-333, the success path of [evaluate_excedencia]: the engine's
    result value is deserialized into a response, whose output goes
    through [ExcedenciaOutput] and is written back field by field. *)
Definition reshape_output (response : Response.ExcedenciaResponse) : result Response.ExcedenciaResponse de_error :=
  let! internal_output :=
    deserialize_ExcedenciaOutput (serialize_ExcedenciaOutputForSchema (Response.output response)) in
  Ok {| Response.output := {| Schema.descripcion := Internal.descripcion internal_output;
                     Schema.importe_mensual := Internal.importe_mensual internal_output;
                     Schema.requisitos_adicionales := Internal.requisitos_adicionales internal_output;
                     Schema.supuesto := Internal.supuesto internal_output;
                     Schema.tiene_derecho_potencial := Internal.tiene_derecho_potencial internal_output;
                     Schema.errores := Internal.errores internal_output;
                     Schema.advertencias := Internal.advertencias internal_output |};
        Response.input := Response.input response;
        Response.parentesco_valido := Response.parentesco_valido response |}.

Definition evaluate_success (result_value : value) : result Response.ExcedenciaResponse de_error :=
  let! response := deserialize_ExcedenciaResponse result_value in
  reshape_output response.

(* ------------------------------------------------------------------ *)
(** ** Error taxonomy and evaluation (lines 36-71, 301-344) *)

Definition nl : string := String "010"%char EmptyString.

Module Excedencia.
Inductive ExcedenciaError :=
| ValidationError (errors : list ValidationError)
| ZenEngineError (e : EvaluationError)
| SerializationError (e : string).
End Excedencia.

Import Excedencia (ExcedenciaError).

(** [impl fmt::Display for ExcedenciaError]. *)
Definition display_ExcedenciaError (err : ExcedenciaError) : string :=
  match err with
  | Excedencia.ValidationError errs =>
      "Errores de validación:" ++ nl
      ++ String.concat EmptyString
           (map (fun e => "  - " ++ path e ++ ": " ++ message e ++ nl) errs)
  | Excedencia.ZenEngineError e => "Error del motor de decisión: " ++ ev_display e
  | Excedencia.SerializationError e => "Error de serialización: " ++ e
  end.

(** [Display] of the serde errors, as carried by [SerializationError]. *)
Definition de_error_text (e : de_error) : string :=
  match e with
  | Custom msg => msg
  | InvalidType => "invalid type"
  | InvalidValue => "invalid value"
  | InvalidLength => "invalid length"
  | MissingField k => "missing field `" ++ k ++ "`"
  end.

(** Lines 335-343: the engine's error becomes a validation error when
    the salvage extractor recovers something, else it is kept as is. *)
Definition on_engine_error (zen_error : EvaluationError) : ExcedenciaError :=
  match extract_validation_errors zen_error with
  | Some validation_errors => Excedencia.ValidationError validation_errors
  | None => Excedencia.ZenEngineError zen_error
  end.

(** The CallToolResult of rmcp: text contents and the error flag. *)
Record CallToolResult := { content : list string; is_error : bool }.

Definition tool_success (c : list string) : CallToolResult := {| content := c; is_error := false |}.
Definition tool_error (c : list string) : CallToolResult := {| content := c; is_error := true |}.

(** The outcome of awaiting a [spawn_blocking] handle: the closure's
    value, or a [JoinError] (the closure panicked or was cancelled),
    given by its [Display] text. *)
Inductive join_result (A : Type) := JoinOk (a : A) | JoinErr (join_error : string).
Arguments JoinOk {A} a.
Arguments JoinErr {A} join_error.

Section Tool.

(** The external collaborators: loading the bundled ruleset, the
    engine's evaluation, creating the inner tokio runtime, the text of a
    [JoinError] for a panicked task, and [serde_json::to_string_pretty]. *)
Variable load_decision : result unit string.
Variable decision_evaluate : value -> result value EvaluationError.
Variable runtime_new : result unit string.
Variable panic_join_error : string.
Variable to_string_pretty : Response.ExcedenciaResponse -> result string string.

(** [ExcedenciaDecisionEngine::evaluate_excedencia]. *)
Definition evaluate_excedencia (request : ExcedenciaRequest)
    : result Response.ExcedenciaResponse ExcedenciaError :=
  match load_decision with
  | Err e => Err (Excedencia.SerializationError e)
  | Ok _ =>
      let json_value := serialize_ExcedenciaRequest request in
      match decision_evaluate json_value with
      | Ok result_value =>
          match evaluate_success result_value with
          | Ok response => Ok response
          | Err e => Err (Excedencia.SerializationError (de_error_text e))
          end
      | Err zen_error => Err (on_engine_error zen_error)
      end
  end.

(** The closure given to [spawn_blocking] (lines 485-492): [None] when it
    panics, which happens when [Runtime::new().unwrap()] fails. *)
Definition blocking_task (request : ExcedenciaRequest)
    : option (result Response.ExcedenciaResponse ExcedenciaError) :=
  match runtime_new with
  | Err _ => None
  | Ok _ => Some (evaluate_excedencia request)
  end.

(** [spawn_blocking(..).await]: a panic of the task is caught by tokio and
    returned as a [JoinError]. *)
Definition spawn_blocking {A} (task : option A) : join_result A :=
  match task with
  | Some a => JoinOk a
  | None => JoinErr panic_join_error
  end.

(** Lines 494-526: the joined outcome turned into the tool's result. *)
Definition tool_result (joined : join_result (result Response.ExcedenciaResponse ExcedenciaError))
    : result CallToolResult string :=
  match joined with
  | JoinOk eval_result =>
      match eval_result with
      | Ok response =>
          match to_string_pretty response with
          | Ok json_str => Ok (tool_success [json_str])
          | Err e => Ok (tool_error ["Error al serializar la respuesta: " ++ e])
          end
      | Err e =>
          let error_msg :=
            match e with
            | Excedencia.ValidationError validation_errors =>
                "Errores de validación:" ++ nl
                ++ String.concat EmptyString
                     (map (fun er => "  - Campo '" ++ path er ++ "': " ++ message er ++ nl)
                          validation_errors)
            | _ => "Error al evaluar: " ++ display_ExcedenciaError e
            end in
          Ok (tool_error [error_msg])
      end
  | JoinErr join_error => Ok (tool_error ["Error interno: " ++ join_error])
  end.

(** [Calculadora::evaluar_supuesto_excedencia]. *)
Definition evaluar_supuesto_excedencia (direct_params : Direct.ExcedenciaDirectParams)
    : result CallToolResult string :=
  let request := shape_request direct_params in
  tool_result (spawn_blocking (blocking_task request)).

End Tool.

(* ------------------------------------------------------------------ *)
(** ** Auxiliary definitions used by the statements *)

Fixpoint all_chars (f : ascii -> bool) (s : string) : bool :=
  match s with
  | EmptyString => true
  | String c s' => f c && all_chars f s'
  end.

(** [s] has no double quote. *)
Definition no_dquote (s : string) : bool := all_chars (fun c => negb (Ascii.eqb c dquote)) s.

(** [s] has no comma. *)
Definition no_comma (s : string) : bool := all_chars (fun c => negb (Ascii.eqb c ","%char)) s.

(** [s] can stand as it is between the quotes of a JSON string literal and
    denotes itself there: no quote, no backslash, no control character. *)
Definition json_plain (s : string) : bool :=
  all_chars (fun c => negb (Ascii.eqb c dquote) && negb (Ascii.eqb c bslash)
                      && Nat.leb 32 (nat_of_ascii c)) s.

(** No proper suffix of [pat] is also a prefix of it. *)
Definition unbordered (pat : string) : bool :=
  forallb (fun k => negb (prefix (drop k pat) pat)) (seq 1 (String.length pat - 1)).

(** The fragment of the first marker pair found, in priority order. *)
Fixpoint first_candidate_in (text : string) (ps : list (string * string)) : option string :=
  match ps with
  | [] => None
  | pat :: ps' =>
      match candidate text pat with
      | Some c => Some c
      | None => first_candidate_in text ps'
      end
  end.

Definition first_candidate (text : string) : option string :=
  first_candidate_in text patterns.

(** None of the three start markers and no [is not one of]. *)
Definition salvage_free (s : string) : bool :=
  negb (contains s marker1) && negb (contains s marker2)
  && negb (contains s marker3) && negb (contains s enum_phrase).

(** A text with a bad [{"source":{"errors": ..] fragment, an enum
    message for the heuristic, and a decodable [{"errors": ..] fragment. *)
Definition preempted_text : string :=
  dq "{`errors`:0,`source`:{`errors`:[{`message`:`m`,`path`:`p`}]},`type`:`Validation`} {`source`:{`errors`:0,`type`:`Validation`} `message`:`x is not one of y`".

(** An enum message whose list contains a comma. *)
Definition comma_message_text : string := dq "`message`:`x is not one of [a,b]`".

(** Noise before a well-formed fragment that contains the first start marker. *)
Definition marker_noise : string := dq "{`source`:{`errors`:zz ".

(** The envelope [{"source":{"errors":[{"message":m,"path":p}]},"type":"Validation"}]. *)
Definition validation_fragment (m p : string) : string :=
  dq "{`source`:{`errors`:[{`message`:`" ++ m ++ dq "`,`path`:`" ++ p
  ++ dq "`}]},`type`:`Validation`}".

(** The same envelope with an empty [errors] array. *)
Definition empty_validation_fragment : string :=
  dq "{`source`:{`errors`:[]},`type`:`Validation`}".

(** A [Validation] envelope whose [errors] array sits at the top level
    rather than under [source]: the second marker of the scanner. *)
Definition errors_fragment (m p : string) : string :=
  dq "{`errors`:[{`message`:`" ++ m ++ dq "`,`path`:`" ++ p
  ++ dq "`}],`type`:`Validation`}".

(** The text after the last comma of [s] (all of [s] when it has none):
    the start of the comma piece that [s] ends in. *)
Definition last_piece (s : string) : string := last (split ","%char s) EmptyString.

(** [line] holds [open_] followed, later in [line], by a double quote:
    the heuristic scan takes a value from such a comma piece. *)
Definition holds_value (open_ line : string) : bool :=
  match find open_ line with
  | Some start =>
      match find quote (drop (start + String.length open_) line) with
      | Some _ => true
      | None => false
      end
  | None => false
  end.

(** A second complete message after the enum message. *)
Definition later_message_text : string :=
  dq "`message`:`x is not one of [a]`,`message`:`other`".

(** An unclosed message before the enum message, in the same comma piece. *)
Definition earlier_message_text : string :=
  dq "`message`:`a `message`:`x is not one of [a]`".

(** The message key just before the enum message. *)
Definition key_before_message_text : string :=
  dq "`message`:`message`:`x is not one of [a]`".

(** The [input] echo of the response when the engine's result carries the
    request's [input] object unchanged: the request's input serialized,
    then read back as the response's [Option<ExcedenciaInput>] field. *)
Definition input_echo (direct_params : Direct.ExcedenciaDirectParams)
    : result (option Input.ExcedenciaInput) de_error :=
  de_option deserialize_ExcedenciaInput
    (serialize_ExcedenciaInput (input (shape_request direct_params))).

(* ================================================================== *)
(** * Properties *)

(** ** String lemmas *)

Lemma append_nil_r : forall a, a ++ "" = a.
Proof. induction a; simpl; congruence. Qed.

Lemma prefix_spec : forall a b, prefix a b = true <-> exists t, b = a ++ t.
Proof.
  induction a as [|c a IH]; intros b; simpl.
  - split; [intros _; exists b; reflexivity | intros _; destruct b; reflexivity].
  - destruct b as [|d b]; simpl.
    + split; [discriminate | intros [t Ht]; discriminate].
    + destruct (ascii_dec c d) as [<-|Hne].
      * rewrite IH. split; intros [t Ht]; exists t; congruence.
      * split; [discriminate | intros [t Ht]; congruence].
Qed.

Lemma prefix_app_same : forall a b, prefix a (a ++ b) = true.
Proof. intros a b. apply prefix_spec. eauto. Qed.

Lemma find_cons : forall pat c s,
  find pat (String c s) =
  if prefix pat (String c s) then Some 0 else option_map S (find pat s).
Proof. reflexivity. Qed.

Lemma find_some_prefix : forall pat s i,
  find pat s = Some i -> prefix pat (drop i s) = true.
Proof.
  intros pat s; induction s as [|c s IH]; intros i H.
  - assert (E0 : find pat ""%string = if prefix pat ""%string then Some 0 else None)
      by reflexivity.
    rewrite E0 in H.
    destruct (prefix pat ""%string) eqn:E; inversion H; subst; exact E.
  - rewrite find_cons in H. destruct (prefix pat (String c s)) eqn:E.
    + inversion H; subst; exact E.
    + destruct (find pat s) as [j|] eqn:F; inversion H; subst. simpl. auto.
Qed.

Lemma prefix_cons_neq : forall c d p s, c <> d -> prefix (String c p) (String d s) = false.
Proof.
  intros c d p s Hne. simpl. destruct (ascii_dec c d); [congruence | reflexivity].
Qed.

Lemma not_dquote : forall c, negb (Ascii.eqb c dquote) = true -> dquote <> c.
Proof.
  intros c Hc <-. rewrite Ascii.eqb_refl in Hc. discriminate.
Qed.

Lemma find_app_noquote : forall pat' a b, no_dquote a = true ->
  find (String dquote pat') (a ++ b) =
  option_map (Nat.add (String.length a)) (find (String dquote pat') b).
Proof.
  intros pat' a b; induction a as [|c a IH]; intros Ha.
  - simpl append. destruct (find (String dquote pat') b); reflexivity.
  - unfold no_dquote in Ha; simpl in Ha.
    apply andb_prop in Ha as [Hc Ha].
    change (String c a ++ b) with (String c (a ++ b)).
    rewrite find_cons, prefix_cons_neq by (apply not_dquote; exact Hc).
    rewrite IH by exact Ha.
    destruct (find (String dquote pat') b); reflexivity.
Qed.

Lemma prefix_cons : forall c d p s,
  prefix (String c p) (String d s) = if ascii_dec c d then prefix p s else false.
Proof. reflexivity. Qed.

Lemma no_dquote_cons : forall c s, no_dquote (String c s) = true ->
  dquote <> c /\ no_dquote s = true.
Proof.
  intros c s H. unfold no_dquote in H. cbn [all_chars] in H.
  apply andb_prop in H as [Hc H]. split; [apply not_dquote; exact Hc | exact H].
Qed.

Lemma prefix_quote_split : forall u w v s,
  no_dquote u = true -> no_dquote w = true ->
  prefix (u ++ String dquote v) (w ++ String dquote s) = (String.eqb u w && prefix v s)%bool.
Proof.
  induction u as [|c u IH]; intros w v s Hu Hw; destruct w as [|d w];
    cbn [append]; rewrite prefix_cons.
  - destruct (ascii_dec dquote dquote) as [_|N]; [reflexivity|congruence].
  - apply no_dquote_cons in Hw as [Hd _].
    destruct (ascii_dec dquote d) as [E|_]; [congruence|reflexivity].
  - apply no_dquote_cons in Hu as [Hc _].
    destruct (ascii_dec c dquote) as [E|_]; [congruence|reflexivity].
  - apply no_dquote_cons in Hu as [_ Hu]. apply no_dquote_cons in Hw as [_ Hw].
    destruct (ascii_dec c d) as [<-|Hne].
    + cbn [String.eqb]. rewrite Ascii.eqb_refl. apply IH; assumption.
    + cbn [String.eqb]. apply Ascii.eqb_neq in Hne. rewrite Hne. reflexivity.
Qed.

Lemma drop_app : forall a b, drop (String.length a) (a ++ b) = b.
Proof. induction a; simpl; auto. Qed.

Lemma drop_drop : forall i j s, drop i (drop j s) = drop (j + i) s.
Proof.
  intros i j; revert i; induction j as [|j IH]; intros i s; simpl; [reflexivity|].
  destruct s; [destruct i; reflexivity | apply IH].
Qed.

Lemma length_app : forall a b, String.length (a ++ b) = String.length a + String.length b.
Proof. induction a; simpl; auto. Qed.

Lemma append_assoc : forall a b c, (a ++ b) ++ c = a ++ (b ++ c).
Proof. induction a; simpl; congruence. Qed.

Lemma substring_app : forall a b c,
  substring (String.length a) (String.length b) (a ++ b ++ c) = b.
Proof.
  induction a as [|x a IH]; intros b c; simpl.
  - induction b as [|y b IHb]; simpl; [destruct c; reflexivity|].
    rewrite IHb. reflexivity.
  - apply IH.
Qed.


(** ** Decoder lemmas *)

(** Splits a hypothesis [H : (let! .. in ..) = Ok _] into its steps. *)
Ltac split_results H :=
  repeat match type of H with
    | context [match ?x with Ok _ => _ | Err _ => _ end] =>
        let E := fresh "E" in destruct x eqn:E; try discriminate H
    | context [match ?x with (_, _) => _ end] => destruct x
    | context [match ?x with [] => _ | _ :: _ => _ end] =>
        destruct x; try discriminate H
    end.

Lemma de_i32_range : forall v z, de_i32 v = Ok z -> i32_in_range z = true.
Proof.
  intros v z H.
  destruct v as [| | [u|i|f] | | |]; simpl in H; try discriminate.
  - destruct (i32_in_range u) eqn:E; inversion H; subst; exact E.
  - destruct (i32_in_range i) eqn:E; inversion H; subst; exact E.
Qed.

Lemma de_i32_to_value : forall z, i32_in_range z = true -> de_i32 (i32_to_value z) = Ok z.
Proof.
  intros z Hz. unfold i32_to_value.
  destruct (z <? 0)%Z; simpl; rewrite Hz; reflexivity.
Qed.

Lemma de_strings_map : forall l, de_strings (Array (map Str l)) = Ok l.
Proof.
  intros l. unfold de_strings. induction l as [|x l IH]; simpl; [reflexivity|].
  rewrite IH. reflexivity.
Qed.

Lemma seq_next_i32_range : forall l z l',
  seq_next None de_i32 l = Ok (z, l') -> i32_in_range z = true.
Proof.
  intros l z l' H. destruct l as [|v l]; simpl in H; [discriminate|].
  destruct (de_i32 v) eqn:E; inversion H; subst. eapply de_i32_range; eauto.
Qed.

Lemma de_output_fields_range : forall v o,
  de_output_fields v = Ok o -> i32_in_range (Schema.importe_mensual o) = true.
Proof.
  intros v o H. destruct v as [| | | | l0 | m]; simpl in H; try discriminate.
  - split_results H. inversion H; subst. simpl. eapply seq_next_i32_range; eauto.
  - unfold required at 2 in H. destruct (lookup "importe_mensual" m) as [vi|] eqn:Li;
      split_results H; inversion H; subst; simpl; eapply de_i32_range; eauto.
Qed.

Lemma output_roundtrip : forall o,
  i32_in_range (Schema.importe_mensual o) = true ->
  deserialize_ExcedenciaOutput (serialize_ExcedenciaOutputForSchema o) =
  Ok {| Internal.descripcion := Schema.descripcion o;
        Internal.importe_mensual := Schema.importe_mensual o;
        Internal.requisitos_adicionales := Schema.requisitos_adicionales o;
        Internal.supuesto := Schema.supuesto o;
        Internal.tiene_derecho_potencial := Schema.tiene_derecho_potencial o;
        Internal.errores := Schema.errores o;
        Internal.advertencias := Schema.advertencias o |}.
Proof.
  intros [d i r s t e a] Hi. simpl in Hi.
  unfold deserialize_ExcedenciaOutput, serialize_ExcedenciaOutputForSchema, de_output_fields.
  unfold required, defaulted. cbn [lookup List.find fst snd option_map String.eqb Ascii.eqb Bool.eqb].
  rewrite de_i32_to_value by exact Hi. rewrite !de_strings_map. reflexivity.
Qed.

Lemma reshape_output_id : forall r,
  i32_in_range (Schema.importe_mensual (Response.output r)) = true ->
  reshape_output r = Ok r.
Proof.
  intros [o i p] Hi. unfold reshape_output. simpl in *.
  rewrite output_roundtrip by exact Hi. destruct o; reflexivity.
Qed.

Lemma deserialize_response_range : forall v r,
  deserialize_ExcedenciaResponse v = Ok r ->
  i32_in_range (Schema.importe_mensual (Response.output r)) = true.
Proof.
  intros v r H. destruct v as [| | | | l0 | m]; simpl in H; try discriminate.
  - destruct l0 as [|vo l1]; simpl in H; [discriminate|].
    destruct (deserialize_ExcedenciaOutputForSchema vo) as [o|] eqn:Eo; [|discriminate].
    split_results H. inversion H; subst. simpl. eapply de_output_fields_range; eauto.
  - unfold required in H. destruct (lookup "output" m) as [vo|]; [|discriminate].
    destruct (deserialize_ExcedenciaOutputForSchema vo) as [o|] eqn:Eo; [|discriminate].
    split_results H. inversion H; subst. simpl. eapply de_output_fields_range; eauto.
Qed.

(** ** Extractor lemmas *)

Lemma substring_drop : forall i n s, substring i n s = substring 0 n (drop i s).
Proof.
  induction i as [|i IH]; intros n s; [reflexivity|].
  destruct s as [|c s]; simpl.
  - destruct n; reflexivity.
  - apply IH.
Qed.

Lemma substring_prefix : forall a u n, String.length a <= n ->
  substring 0 n (a ++ u) = a ++ substring 0 (n - String.length a) u.
Proof.
  induction a as [|c a IH]; intros u n Hn; simpl.
  - rewrite Nat.sub_0_r. reflexivity.
  - destruct n as [|n]; simpl in Hn; [lia|]. simpl. rewrite IH by lia. reflexivity.
Qed.

(** A fragment cut from a found start marker begins with the marker. *)
Lemma candidate_starts : forall text sp ep c,
  candidate text (sp, ep) = Some c -> exists r, c = sp ++ r.
Proof.
  intros text sp ep c H. unfold candidate in H.
  destruct (find sp text) as [start|] eqn:F; [|discriminate].
  destruct (find ep (drop (start + String.length sp) text)) as [rel|]; [|discriminate].
  inversion H; subst c; clear H.
  apply find_some_prefix, prefix_spec in F as [u Hu].
  unfold slice. rewrite substring_drop, Hu, substring_prefix by lia. eauto.
Qed.

Lemma candidate_none : forall text sp ep,
  find sp text = None -> candidate text (sp, ep) = None.
Proof. intros text sp ep H. unfold candidate. rewrite H. reflexivity. Qed.

(** Text that starts with a quote is read as a JSON string, if at all. *)
Lemma parse_value_quote : forall f r,
  Json.parse_value f (String dquote r) = None \/
  exists raw rest, Json.parse_value f (String dquote r) = Some (Json.TStr raw, rest).
Proof.
  intros [|f] r; [left; reflexivity|]. simpl.
  destruct (Json.lex_string r) as [[raw rest]|]; simpl; eauto.
Qed.

Lemma from_str_details_quote : forall r, from_str_details (String dquote r) = None.
Proof.
  intros r. unfold from_str_details, Json.parse.
  destruct (parse_value_quote (2 * String.length (String dquote r) + 2) r)
    as [E | (raw & rest & E)]; rewrite E; [reflexivity|].
  destruct (is_empty (Json.skip_ws rest)); reflexivity.
Qed.

Lemma marker3_quote : forall s, marker3 ++ s = String dquote (dq "errors`:[" ++ s).
Proof. reflexivity. Qed.

(** When the text has no [is not one of], the heuristic finds nothing. *)
Lemma manual_no_phrase : forall text,
  contains text enum_phrase = false -> manual_extract_errors text = None.
Proof. intros text H. unfold manual_extract_errors. rewrite H. reflexivity. Qed.

Lemma contains_false : forall s pat, contains s pat = false -> find pat s = None.
Proof. unfold contains. intros s pat. destruct (find pat s); congruence. Qed.

Lemma salvage_free_none : forall s, salvage_free s = true -> extract_json_from_string s = None.
Proof.
  intros s H. unfold salvage_free in H.
  apply andb_prop in H as [H H4]. apply andb_prop in H as [H H3].
  apply andb_prop in H as [H1 H2]. apply negb_true_iff in H1, H2, H3, H4.
  unfold extract_json_from_string, extract_loop, patterns.
  rewrite !candidate_none by (apply contains_false; assumption).
  apply manual_no_phrase. exact H4.
Qed.

(** ** Finding and splitting around quotes *)

Lemma find_unfold : forall pat s,
  find pat s = if prefix pat s then Some 0
               else match s with EmptyString => None | String _ s' => option_map S (find pat s') end.
Proof. intros pat [|c s]; reflexivity. Qed.

Lemma find_prefix_zero : forall pat s, prefix pat s = true -> find pat s = Some 0.
Proof. intros pat s H. rewrite find_unfold, H. reflexivity. Qed.

Lemma find_quote_step : forall pat' a rest, no_dquote a = true ->
  find (String dquote pat') (a ++ String dquote rest) =
  if prefix pat' rest then Some (String.length a)
  else option_map (fun k => String.length a + S k) (find (String dquote pat') rest).
Proof.
  intros pat' a rest Ha. rewrite find_app_noquote by exact Ha.
  rewrite find_cons, prefix_cons.
  destruct (ascii_dec dquote dquote) as [_|N]; [|congruence].
  destruct (prefix pat' rest); simpl; [f_equal; lia|].
  destruct (find (String dquote pat') rest); simpl; [f_equal; lia | reflexivity].
Qed.

Lemma find_le : forall pat s i, find pat s = Some i -> i <= String.length s.
Proof.
  intros pat s; induction s as [|c s IH]; intros i H; rewrite find_unfold in H.
  - destruct (prefix pat ""); inversion H; simpl; lia.
  - destruct (prefix pat (String c s)); [inversion H; simpl; lia|].
    destruct (find pat s) as [j|]; inversion H; subst. specialize (IH j eq_refl). simpl; lia.
Qed.

Lemma prefix_find : forall pat s i, prefix pat (drop i s) = true -> contains s pat = true.
Proof.
  intros pat s; unfold contains; induction s as [|c s IH]; intros i H.
  - rewrite find_unfold. assert (D : drop i ""%string = ""%string) by (destruct i; reflexivity).
    rewrite D in H. rewrite H. reflexivity.
  - rewrite find_unfold. destruct (prefix pat (String c s)) eqn:P; [reflexivity|].
    destruct i as [|i]; [cbn [drop] in H; congruence|].
    cbn [drop] in H. specialize (IH i H). destruct (find pat s); [reflexivity | discriminate].
Qed.

Lemma drop_app_le : forall i a b, i <= String.length a -> drop i (a ++ b) = drop i a ++ b.
Proof.
  induction i as [|i IH]; intros a b Hi; [reflexivity|].
  destruct a as [|c a]; simpl in Hi; [lia|]. simpl. apply IH. lia.
Qed.

Lemma contains_app_r : forall a b pat, contains b pat = true -> contains (a ++ b) pat = true.
Proof.
  intros a b pat H. unfold contains in H.
  destruct (find pat b) as [i|] eqn:F; [|discriminate].
  apply find_some_prefix in F.
  apply (prefix_find _ _ (String.length a + i)).
  rewrite <- drop_drop, drop_app. exact F.
Qed.

Lemma contains_app_l : forall a b pat, contains a pat = true -> contains (a ++ b) pat = true.
Proof.
  intros a b pat H. unfold contains in H.
  destruct (find pat a) as [i|] eqn:F; [|discriminate].
  pose proof (find_le _ _ _ F) as Hle. apply find_some_prefix in F.
  apply (prefix_find _ _ i). rewrite drop_app_le by exact Hle.
  apply prefix_spec in F as [t Ht]. rewrite Ht, append_assoc. apply prefix_app_same.
Qed.

Lemma split_nonempty : forall c s, exists x xs, split c s = x :: xs.
Proof.
  intros c s; induction s as [|y s IH]; simpl; [eauto|].
  destruct IH as (x & xs & E). rewrite E. destruct (Ascii.eqb y c); eauto.
Qed.

(** A comma-free head is glued to the first piece of the rest. *)
Lemma split_app_nocomma : forall a b, no_comma a = true ->
  split ","%char (a ++ b) =
  (a ++ hd EmptyString (split ","%char b)) :: tl (split ","%char b).
Proof.
  intros a b Ha. induction a as [|y a IH].
  - simpl. destruct (split_nonempty ","%char b) as (x & xs & E). rewrite E. reflexivity.
  - unfold no_comma in Ha. cbn [all_chars] in Ha. apply andb_prop in Ha as [Hy Ha].
    apply negb_true_iff in Hy. cbn [append split]. rewrite IH by exact Ha. rewrite Hy. reflexivity.
Qed.

Lemma split_app : forall a, exists A la, split ","%char a = app A [la] /\
  forall b, split ","%char (a ++ b) =
            app A ((la ++ hd EmptyString (split ","%char b)) :: tl (split ","%char b)).
Proof.
  induction a as [|y a IH].
  - exists [], EmptyString. split; [reflexivity|]. intros b. simpl.
    destruct (split_nonempty ","%char b) as (x & xs & E). rewrite E. reflexivity.
  - destruct IH as (A & la & Ea & Eb). cbn [split append]. rewrite Ea.
    destruct (Ascii.eqb y ","%char).
    + exists (EmptyString :: A), la. split; [reflexivity|]. intros b. rewrite Eb. reflexivity.
    + destruct A as [|a0 A].
      * exists [], (String y la). split; [reflexivity|]. intros b. rewrite Eb. reflexivity.
      * exists (String y a0 :: A), la. split; [reflexivity|]. intros b. rewrite Eb. reflexivity.
Qed.

(** ** The heuristic scan *)

Lemma no_comma_app : forall a b, no_comma (a ++ b) = (no_comma a && no_comma b)%bool.
Proof.
  unfold no_comma. induction a as [|c a IH]; intros b; [reflexivity|].
  cbn [append all_chars]. rewrite IH. apply andb_assoc.
Qed.

(** When no marker-pair fragment decodes, the extractor returns what the
    heuristic scan returns. *)
Lemma loop_all_fail : forall text ps,
  (forall pat c, In pat ps -> candidate text pat = Some c -> from_str_details c = None) ->
  extract_loop text ps = manual_extract_errors text.
Proof.
  intros text ps; induction ps as [|pat ps IH]; intros H; [reflexivity|].
  simpl. destruct (candidate text pat) as [c|] eqn:C.
  - rewrite (H pat c (or_introl eq_refl) C).
    destruct (manual_extract_errors text) eqn:M; [reflexivity|].
    rewrite IH; [reflexivity|]. intros; eapply H; eauto. right; assumption.
  - apply IH. intros; eapply H; eauto. right; assumption.
Qed.


(** ** Decoding the validation fragment *)
Lemma json_plain_cons : forall c s, json_plain (String c s) = true ->
  Ascii.eqb c dquote = false /\ Ascii.eqb c bslash = false /\
  Nat.ltb (nat_of_ascii c) 32 = false /\ json_plain s = true.
Proof.
  intros c s H. unfold json_plain in H. cbn [all_chars] in H.
  apply andb_prop in H as [H Hs]. apply andb_prop in H as [H H3].
  apply andb_prop in H as [H1 H2]. apply negb_true_iff in H1, H2.
  repeat split; try assumption. apply Nat.ltb_ge. apply Nat.leb_le. exact H3.
Qed.

Lemma lex_string_plain : forall m r, json_plain m = true ->
  Json.lex_string (m ++ String dquote r) = Some (m, r).
Proof.
  induction m as [|c m IH]; intros r H; [reflexivity|].
  apply json_plain_cons in H as (H1 & H2 & H3 & H). cbn [append Json.lex_string].
  rewrite H1, H2, H3, IH by exact H. reflexivity.
Qed.

Lemma decode_raw_plain : forall m, json_plain m = true -> Json.decode_raw m = Some m.
Proof.
  induction m as [|c m IH]; intros H; [reflexivity|].
  apply json_plain_cons in H as (H1 & H2 & H3 & H). cbn [Json.decode_raw].
  rewrite H2, IH by exact H. reflexivity.
Qed.

Lemma pv_string : forall f s r, json_plain s = true ->
  Json.parse_value (S f) (String dquote (s ++ String dquote r)) = Some (Json.TStr s, r).
Proof.
  intros f s r H. cbn [Json.parse_value]. cbn. rewrite lex_string_plain by exact H. reflexivity.
Qed.

Lemma pv_object : forall f s0 ms r,
  Json.parse_members f (String dquote s0) = Some (ms, r) ->
  Json.parse_value (S f) (String "{" (String dquote s0)) = Some (Json.TObj ms, r).
Proof. intros f s0 ms r H. cbn [Json.parse_value]. cbn. rewrite H. reflexivity. Qed.

Lemma pv_array : forall f s0 vs r,
  Json.parse_elems f (String "{" s0) = Some (vs, r) ->
  Json.parse_value (S f) (String "[" (String "{" s0)) = Some (Json.TArr vs, r).
Proof. intros f s0 vs r H. cbn [Json.parse_value]. cbn. rewrite H. reflexivity. Qed.

Lemma pe_last : forall f s v r,
  Json.parse_value f s = Some (v, String "]" r) ->
  Json.parse_elems (S f) s = Some ([v], r).
Proof. intros f s v r H. cbn [Json.parse_elems]. rewrite H. reflexivity. Qed.

Lemma pm_last : forall f k v_text v r, json_plain k = true ->
  Json.parse_value f v_text = Some (v, String "}" r) ->
  Json.parse_members (S f) (String dquote (k ++ String dquote (String ":" v_text)))
  = Some ([(k, v)], r).
Proof.
  intros f k v_text v r Hk H. cbn [Json.parse_members]. cbn.
  rewrite lex_string_plain by exact Hk. cbn. rewrite H. reflexivity.
Qed.

Lemma pm_cons : forall f k v_text v r1 ms r, json_plain k = true ->
  Json.parse_value f v_text = Some (v, String "," r1) ->
  Json.parse_members f r1 = Some (ms, r) ->
  Json.parse_members (S f) (String dquote (k ++ String dquote (String ":" v_text)))
  = Some ((k, v) :: ms, r).
Proof.
  intros f k v_text v r1 ms r Hk H H1. cbn [Json.parse_members]. cbn.
  rewrite lex_string_plain by exact Hk. cbn. rewrite H. cbn. rewrite H1. reflexivity.
Qed.

Lemma frag_eq : forall m p, validation_fragment m p =
  "{" ++ String dquote ("source" ++ String dquote (":{" ++ String dquote ("errors" ++ String dquote (":[{" ++ String dquote ("message" ++ String dquote (":" ++ String dquote (m ++ String dquote ("," ++ String dquote ("path" ++ String dquote (":" ++ String dquote (p ++ String dquote ("}]}," ++ String dquote ("type" ++ String dquote (":" ++ String dquote ("Validation" ++ String dquote ("}")))))))))))))))).
Proof. reflexivity. Qed.

Lemma frag_parse : forall m p k, json_plain m = true -> json_plain p = true ->
  Json.parse_value (20 + k) (validation_fragment m p) =
  Some (Json.TObj [("source", Json.TObj [("errors", Json.TArr [Json.TObj
          [("message", Json.TStr m); ("path", Json.TStr p)]])]);
        ("type", Json.TStr "Validation")], ""%string).
Proof.
  intros m p k Hm Hp. rewrite frag_eq.
  apply pv_object.
  eapply pm_cons; [reflexivity | | ].
  - apply pv_object. apply pm_last; [reflexivity|].
    apply pv_array. apply pe_last. apply pv_object.
    eapply pm_cons; [reflexivity | apply pv_string; exact Hm | ].
    apply pm_last; [reflexivity|]. apply pv_string; exact Hp.
  - apply pm_last; [reflexivity|]. apply (pv_string _ "Validation"); reflexivity.
Qed.

Lemma frag_decodes : forall m p, json_plain m = true -> json_plain p = true ->
  from_str_details (validation_fragment m p) =
  Some {| source := {| errors := [{| message := m; path := p |}] |};
          error_type := "Validation" |}.
Proof.
  intros m p Hm Hp. unfold from_str_details, Json.parse.
  assert (L : 20 <= 2 * String.length (validation_fragment m p) + 2).
  { unfold validation_fragment. rewrite !length_app. cbn [String.length dq]. lia. }
  replace (2 * String.length (validation_fragment m p) + 2)
    with (20 + (2 * String.length (validation_fragment m p) + 2 - 20)) by lia.
  rewrite frag_parse by assumption. cbn.
  rewrite !decode_raw_plain by assumption. reflexivity.
Qed.

Lemma app_eq_app_cases : forall x y z w : string, x ++ y = z ++ w ->
  (exists u, z = x ++ u /\ y = u ++ w) \/ (exists u, x = z ++ u /\ w = u ++ y).
Proof.
  induction x as [|c x IH]; intros y z w H.
  - left. exists z. split; [reflexivity | exact H].
  - destruct z as [|d z].
    + right. exists (String c x). split; [reflexivity | exact (eq_sym H)].
    + cbn [append] in H. inversion H; subst.
      destruct (IH _ _ _ H2) as [(u & E1 & E2) | (u & E1 & E2)].
      * left. exists u. split; [rewrite E1; reflexivity | exact E2].
      * right. exists u. split; [rewrite E1; reflexivity | exact E2].
Qed.

Lemma prefix_refl : forall s, prefix s s = true.
Proof. intros s. rewrite <- (append_nil_r s) at 2. apply prefix_app_same. Qed.

Lemma unbordered_spec : forall pat k, unbordered pat = true ->
  1 <= k -> k < String.length pat -> prefix (drop k pat) pat = false.
Proof.
  intros pat k H H1 H2. unfold unbordered in H.
  rewrite forallb_forall in H.
  assert (Hin : In k (seq 1 (String.length pat - 1))) by (apply in_seq; lia).
  apply H in Hin. apply negb_true_iff in Hin. exact Hin.
Qed.

(** The first occurrence of an unbordered pattern in [a ++ b], where [a]
    has none and [b] starts with it, is at the start of [b]. *)
Lemma find_app_first : forall pat a b, find pat a = None -> unbordered pat = true ->
  prefix pat b = true -> find pat (a ++ b) = Some (String.length a).
Proof.
  intros pat a b; induction a as [|c a IH]; intros Ha Hu Hb.
  - apply find_prefix_zero. exact Hb.
  - rewrite find_unfold in Ha.
    destruct (prefix pat (String c a)) eqn:P; [discriminate|].
    destruct (find pat a) eqn:F; [discriminate|].
    change (String c a ++ b) with (String c (a ++ b)).
    rewrite find_unfold, IH by (reflexivity || assumption).
    destruct (prefix pat (String c (a ++ b))) eqn:Q; [|reflexivity].
    exfalso.
    apply prefix_spec in Q as [t Ht]. apply prefix_spec in Hb as [s Hs].
    change (String c (a ++ b)) with (String c a ++ b) in Ht.
    destruct (app_eq_app_cases _ _ _ _ Ht) as [(u & E1 & E2) | (u & E1 & E2)].
    + (* [pat] runs past [String c a]: a border of length [|u|] *)
      destruct u as [|x u].
      * rewrite append_nil_r in E1. rewrite E1, prefix_refl in P. discriminate.
      * assert (Hd : drop (String.length (String c a)) pat = String x u)
          by (rewrite E1; apply drop_app).
        assert (Hl : String.length pat = String.length (String c a) + String.length (String x u))
          by (rewrite E1; apply length_app).
        assert (B : prefix (String x u) pat = false).
        { rewrite <- Hd. apply unbordered_spec; [exact Hu | simpl; lia | rewrite Hl; simpl; lia]. }
        rewrite Hs in E2.
        destruct (app_eq_app_cases _ _ _ _ E2) as [(v & F1 & _) | (v & F1 & _)].
        -- assert (String.length (String x u) = String.length pat + String.length v)
             by (rewrite F1; apply length_app).
           rewrite Hl in H. simpl in H. lia.
        -- rewrite F1, prefix_app_same in B. discriminate.
    + rewrite E1, prefix_app_same in P. discriminate.
Qed.

Lemma find_quote_skip : forall pat' a rest, no_dquote a = true -> prefix pat' rest = false ->
  find (String dquote pat') (a ++ String dquote rest) =
  option_map (fun k => String.length a + S k) (find (String dquote pat') rest).
Proof. intros pat' a rest Ha Hp. rewrite find_quote_step, Hp by exact Ha. reflexivity. Qed.

Lemma find_quote_hit : forall pat' a rest, no_dquote a = true -> prefix pat' rest = true ->
  find (String dquote pat') (a ++ String dquote rest) = Some (String.length a).
Proof. intros pat' a rest Ha Hp. rewrite find_quote_step, Hp by exact Ha. reflexivity. Qed.

Lemma json_plain_noquote : forall s, json_plain s = true -> no_dquote s = true.
Proof.
  induction s as [|c s IH]; intros H; [reflexivity|].
  apply json_plain_cons in H as (H1 & _ & _ & H).
  unfold no_dquote. cbn [all_chars]. rewrite H1. apply IH. exact H.
Qed.

(** After the first marker, the first closer is the fragment's own. *)
Lemma closer_find : forall m p post, no_dquote m = true -> no_dquote p = true ->
  find closer_validation ("[{" ++ String dquote ("message" ++ String dquote (":" ++ String dquote (m ++ String dquote ("," ++ String dquote ("path" ++ String dquote (":" ++ String dquote (p ++ String dquote ("}]}," ++ String dquote ("type" ++ String dquote (":" ++ String dquote ("Validation" ++ String dquote ("}" ++ post)))))))))))))
  = Some (28 + String.length m + String.length p).
Proof.
  intros m p post Hm Hp.
  change closer_validation with
    (String dquote ("type" ++ String dquote (":" ++ String dquote ("Validation" ++ String dquote "}")))).
  rewrite (find_quote_skip _ "[{"), (find_quote_skip _ "message"), (find_quote_skip _ ":"),
    (find_quote_skip _ m), (find_quote_skip _ ","), (find_quote_skip _ "path"),
    (find_quote_skip _ ":"), (find_quote_skip _ p), (find_quote_hit _ "}]},");
    try (reflexivity || assumption);
    try (rewrite prefix_quote_split by (reflexivity || assumption);
         destruct (String.eqb _ _); reflexivity).
  - cbn [option_map String.length]. f_equal. lia.
  - exact (prefix_app_same _ post).
Qed.

Lemma frag_post_eq : forall m p post,
  validation_fragment m p ++ post = marker1 ++ ("[{" ++ String dquote ("message" ++ String dquote (":" ++ String dquote (m ++ String dquote ("," ++ String dquote ("path" ++ String dquote (":" ++ String dquote (p ++ String dquote ("}]}," ++ String dquote ("type" ++ String dquote (":" ++ String dquote ("Validation" ++ String dquote ("}" ++ post))))))))))))).
Proof. intros m p post. unfold validation_fragment. rewrite !append_assoc. reflexivity. Qed.

Lemma candidate_found : forall text sp ep start rel,
  find sp text = Some start ->
  find ep (drop (start + String.length sp) text) = Some rel ->
  candidate text (sp, ep) =
  Some (slice start (start + String.length sp + rel + String.length ep) text).
Proof. intros text sp ep start rel H1 H2. unfold candidate. rewrite H1, H2. reflexivity. Qed.

Lemma candidate_marker1 : forall pre m p post,
  json_plain m = true -> json_plain p = true -> contains pre marker1 = false ->
  candidate (pre ++ validation_fragment m p ++ post) (marker1, closer_validation) =
  Some (validation_fragment m p).
Proof.
  intros pre m p post Hm Hp Hpre.
  rewrite (candidate_found _ _ _ (String.length pre) (28 + String.length m + String.length p)).
  - f_equal. unfold slice.
    replace (String.length pre + String.length marker1 + (28 + String.length m + String.length p)
             + String.length closer_validation - String.length pre)
      with (String.length (validation_fragment m p)).
    + apply substring_app.
    + unfold validation_fragment. rewrite !length_app.
      change (String.length marker1) with 20. change (String.length closer_validation) with 20.
      cbn [String.length dq]. lia.
  - apply find_app_first.
    + apply contains_false. exact Hpre.
    + vm_compute. reflexivity.
    + rewrite frag_post_eq. apply prefix_app_same.
  - rewrite <- drop_drop, drop_app, frag_post_eq, drop_app.
    apply closer_find; apply json_plain_noquote; assumption.
Qed.

(** ** Further facts about the scanner, the number parser and maps *)

Lemma empty_fragment_decodes :
  from_str_details empty_validation_fragment =
  Some {| source := {| errors := [] |}; error_type := "Validation" |}.
Proof. vm_compute. reflexivity. Qed.

Lemma candidate_empty_fragment : forall pre post, contains pre marker1 = false ->
  candidate (pre ++ empty_validation_fragment ++ post) (marker1, closer_validation) =
  Some empty_validation_fragment.
Proof.
  intros pre post Hpre.
  assert (E : empty_validation_fragment ++ post =
    marker1 ++ ("[]}," ++ String dquote ("type" ++ String dquote (":" ++ String dquote
      ("Validation" ++ String dquote ("}" ++ post)))))) by reflexivity.
  rewrite (candidate_found _ _ _ (String.length pre) 4).
  - f_equal. unfold slice.
    replace (String.length pre + String.length marker1 + 4 + String.length closer_validation
             - String.length pre)
      with (String.length empty_validation_fragment)
      by (change (String.length marker1) with 20; change (String.length closer_validation) with 20;
          change (String.length empty_validation_fragment) with 44; lia).
    apply substring_app.
  - apply find_app_first.
    + apply contains_false. exact Hpre.
    + vm_compute. reflexivity.
    + rewrite E. apply prefix_app_same.
  - rewrite <- drop_drop, drop_app, E, drop_app.
    change closer_validation with
      (String dquote ("type" ++ String dquote (":" ++ String dquote ("Validation" ++ String dquote "}")))).
    rewrite (find_quote_hit _ "[]},"); [reflexivity | reflexivity |].
    exact (prefix_app_same _ post).
Qed.

Lemma errors_frag_eq : forall m p, errors_fragment m p =
  "{" ++ String dquote ("errors" ++ String dquote (":[{" ++ String dquote ("message" ++ String dquote (":" ++ String dquote (m ++ String dquote ("," ++ String dquote ("path" ++ String dquote (":" ++ String dquote (p ++ String dquote ("}]," ++ String dquote ("type" ++ String dquote (":" ++ String dquote ("Validation" ++ String dquote ("}")))))))))))))).
Proof. reflexivity. Qed.

Lemma errors_frag_parse : forall m p k, json_plain m = true -> json_plain p = true ->
  Json.parse_value (20 + k) (errors_fragment m p) =
  Some (Json.TObj [("errors", Json.TArr [Json.TObj
          [("message", Json.TStr m); ("path", Json.TStr p)]]);
        ("type", Json.TStr "Validation")], ""%string).
Proof.
  intros m p k Hm Hp. rewrite errors_frag_eq.
  apply pv_object.
  eapply pm_cons; [reflexivity | | ].
  - apply pv_array. apply pe_last. apply pv_object.
    eapply pm_cons; [reflexivity | apply pv_string; exact Hm | ].
    apply pm_last; [reflexivity|]. apply pv_string; exact Hp.
  - apply pm_last; [reflexivity|]. apply (pv_string _ "Validation"); reflexivity.
Qed.

Lemma errors_frag_fails : forall m p, json_plain m = true -> json_plain p = true ->
  from_str_details (errors_fragment m p) = None.
Proof.
  intros m p Hm Hp. unfold from_str_details, Json.parse.
  assert (L : 20 <= 2 * String.length (errors_fragment m p) + 2).
  { unfold errors_fragment. rewrite !length_app. cbn [String.length dq]. lia. }
  replace (2 * String.length (errors_fragment m p) + 2)
    with (20 + (2 * String.length (errors_fragment m p) + 2 - 20)) by lia.
  rewrite errors_frag_parse by assumption. reflexivity.
Qed.

Lemma errors_closer_find : forall m p post, no_dquote m = true -> no_dquote p = true ->
  find closer_validation ("[{" ++ String dquote ("message" ++ String dquote (":" ++ String dquote (m ++ String dquote ("," ++ String dquote ("path" ++ String dquote (":" ++ String dquote (p ++ String dquote ("}]," ++ String dquote ("type" ++ String dquote (":" ++ String dquote ("Validation" ++ String dquote ("}" ++ post)))))))))))))
  = Some (27 + String.length m + String.length p).
Proof.
  intros m p post Hm Hp.
  change closer_validation with
    (String dquote ("type" ++ String dquote (":" ++ String dquote ("Validation" ++ String dquote "}")))).
  rewrite (find_quote_skip _ "[{"), (find_quote_skip _ "message"), (find_quote_skip _ ":"),
    (find_quote_skip _ m), (find_quote_skip _ ","), (find_quote_skip _ "path"),
    (find_quote_skip _ ":"), (find_quote_skip _ p), (find_quote_hit _ "}],");
    try (reflexivity || assumption);
    try (rewrite prefix_quote_split by (reflexivity || assumption);
         destruct (String.eqb _ _); reflexivity).
  - cbn [option_map String.length]. f_equal. lia.
  - exact (prefix_app_same _ post).
Qed.

Lemma errors_frag_post_eq : forall m p post,
  errors_fragment m p ++ post = marker2 ++ ("[{" ++ String dquote ("message" ++ String dquote (":" ++ String dquote (m ++ String dquote ("," ++ String dquote ("path" ++ String dquote (":" ++ String dquote (p ++ String dquote ("}]," ++ String dquote ("type" ++ String dquote (":" ++ String dquote ("Validation" ++ String dquote ("}" ++ post))))))))))))).
Proof. intros m p post. unfold errors_fragment. rewrite !append_assoc. reflexivity. Qed.

Lemma candidate_marker2 : forall pre m p post,
  json_plain m = true -> json_plain p = true -> contains pre marker2 = false ->
  candidate (pre ++ errors_fragment m p ++ post) (marker2, closer_validation) =
  Some (errors_fragment m p).
Proof.
  intros pre m p post Hm Hp Hpre.
  rewrite (candidate_found _ _ _ (String.length pre) (27 + String.length m + String.length p)).
  - f_equal. unfold slice.
    replace (String.length pre + String.length marker2 + (27 + String.length m + String.length p)
             + String.length closer_validation - String.length pre)
      with (String.length (errors_fragment m p)).
    + apply substring_app.
    + unfold errors_fragment. rewrite !length_app.
      change (String.length marker2) with 10. change (String.length closer_validation) with 20.
      cbn [String.length dq]. lia.
  - apply find_app_first.
    + apply contains_false. exact Hpre.
    + vm_compute. reflexivity.
    + rewrite errors_frag_post_eq. apply prefix_app_same.
  - rewrite <- drop_drop, drop_app, errors_frag_post_eq, drop_app.
    apply errors_closer_find; apply json_plain_noquote; assumption.
Qed.

Lemma marker3_fails : forall text c,
  candidate text (marker3, closer_bracket) = Some c -> from_str_details c = None.
Proof.
  intros text c H. apply candidate_starts in H as [r ->].
  rewrite marker3_quote. apply from_str_details_quote.
Qed.

Lemma fragment_extracted : forall pre m p post,
  json_plain m = true -> json_plain p = true -> contains pre marker1 = false ->
  extract_json_from_string (pre ++ validation_fragment m p ++ post) =
  Some [{| message := m; path := p |}].
Proof.
  intros pre m p post Hm Hp Hpre.
  unfold extract_json_from_string, patterns. cbn [extract_loop].
  rewrite candidate_marker1, frag_decodes by assumption. reflexivity.
Qed.

Lemma sign_default : forall c r, Ascii.eqb c "+"%char = false -> Ascii.eqb c "-"%char = false ->
  match String c r with
  | String "+"%char r' => (false, r')
  | String "-"%char r' => (true, r')
  | _ => (false, String c r)
  end = (false, String c r).
Proof.
  intros c r H1 H2.
  destruct c as [[] [] [] [] [] [] [] []]; try reflexivity; discriminate.
Qed.

Lemma lower_digit : forall c, Json.is_digit c = true -> lower c = c.
Proof.
  intros c H. unfold Json.is_digit in H. unfold lower.
  apply andb_prop in H as [H1 H2]. apply Nat.leb_le in H1, H2.
  destruct (Nat.leb 65 (nat_of_ascii c)) eqn:E; [apply Nat.leb_le in E; simpl; lia|reflexivity].
Qed.

Lemma digit_facts : forall c s, Json.is_digit c = true ->
  Ascii.eqb c "+"%char = false /\ Ascii.eqb c "-"%char = false /\
  String.eqb (to_lowercase (String c s)) "inf" = false /\
  String.eqb (to_lowercase (String c s)) "infinity" = false /\
  String.eqb (to_lowercase (String c s)) "nan" = false.
Proof.
  intros c s H. cbn [to_lowercase]. rewrite lower_digit by exact H.
  repeat split; cbn [String.eqb]; destruct (Ascii.eqb c _) eqn:E; try reflexivity;
    apply Ascii.eqb_eq in E; subst c; discriminate H.
Qed.

Lemma lex_digits_all : forall s r, all_chars Json.is_digit s = true ->
  (match r with String c _ => Json.is_digit c = false | EmptyString => True end) ->
  Json.lex_digits (s ++ r) = (s, r).
Proof.
  induction s as [|c s IH]; intros r H Hr.
  - destruct r as [|c r]; [reflexivity|]. cbn. rewrite Hr. reflexivity.
  - cbn [all_chars] in H. apply andb_prop in H as [Hc H].
    cbn [append Json.lex_digits]. rewrite Hc, IH by assumption. reflexivity.
Qed.

Lemma parse_f64_digits : forall s, s <> EmptyString -> all_chars Json.is_digit s = true ->
  parse_f64 s = Some (of_decimal false (digits_value 0 s) 0).
Proof.
  intros [|c s] Hne H; [congruence|].
  pose proof H as H'. cbn [all_chars] in H'. apply andb_prop in H' as [Hc _].
  destruct (digit_facts c s Hc) as (P & M & I1 & I2 & N).
  unfold parse_f64. rewrite sign_default by assumption. cbn beta iota zeta.
  rewrite I1, I2, N. cbn [orb].
  pose proof (lex_digits_all (String c s) "" H I) as L. rewrite append_nil_r in L.
  rewrite L. cbn beta iota zeta. cbn [is_empty andb].
  rewrite append_nil_r. reflexivity.
Qed.

Lemma parse_f64_signed : forall s, s <> EmptyString -> all_chars Json.is_digit s = true ->
  parse_f64 ("+" ++ s) = Some (of_decimal false (digits_value 0 s) 0) /\
  parse_f64 ("-" ++ s) = Some (of_decimal true (digits_value 0 s) 0).
Proof.
  intros [|c s] Hne H; [congruence|].
  pose proof H as H'. cbn [all_chars] in H'. apply andb_prop in H' as [Hc _].
  destruct (digit_facts c s Hc) as (P & M & I1 & I2 & N).
  pose proof (lex_digits_all (String c s) "" H I) as L. rewrite append_nil_r in L.
  split; unfold parse_f64; cbn [append]; cbn beta iota zeta;
    rewrite I1, I2, N; cbn [orb]; rewrite L; cbn beta iota zeta; cbn [is_empty andb];
    rewrite append_nil_r; reflexivity.
Qed.

Lemma parse_f64_space : forall s r, all_chars Json.is_digit s = true ->
  parse_f64 (s ++ String " " r) = None.
Proof.
  intros [|c s] r H.
  - reflexivity.
  - pose proof H as H'. cbn [all_chars] in H'. apply andb_prop in H' as [Hc _].
    destruct (digit_facts c (s ++ String " " r) Hc) as (P & M & I1 & I2 & N).
    unfold parse_f64. cbn [append].
    rewrite sign_default by assumption. cbn beta iota zeta.
    rewrite I1, I2, N. cbn [orb].
    change (String c (s ++ String " " r)) with (String c s ++ String " " r).
    rewrite lex_digits_all by (exact H || reflexivity).
    reflexivity.
Qed.

Lemma digits_value_nonneg : forall s acc, (0 <= acc)%Z -> all_chars Json.is_digit s = true ->
  (0 <= digits_value acc s)%Z.
Proof.
  induction s as [|c s IH]; intros acc Ha H; [exact Ha|].
  cbn [all_chars] in H. apply andb_prop in H as [Hc H].
  unfold Json.is_digit in Hc. apply andb_prop in Hc as [H1 _]. apply Nat.leb_le in H1.
  cbn [digits_value]. apply IH; [lia | exact H].
Qed.

Lemma of_decimal_int : forall n, (0 <= n)%Z ->
  of_decimal false n 0 = of_Z n /\ of_decimal true n 0 = (if (n =? 0)%Z then S754_zero true else of_Z (- n)).
Proof.
  intros [|q|q] Hn; [split; reflexivity | | lia].
  unfold of_decimal, of_Z. change (10 ^ 0)%Z with 1%Z. rewrite Z.mul_1_r.
  split; reflexivity.
Qed.

Lemma lookup_skip : forall k v k' m, k' <> k ->
  lookup k' ((k, v) :: m) = lookup k' m.
Proof.
  intros k v k' m H. unfold lookup. cbn [List.find fst].
  destruct (String.eqb k k') eqn:E; [apply String.eqb_eq in E; congruence | reflexivity].
Qed.

(** ** The heuristic scan, piece by piece *)

(** A comma piece that holds no complete value leaves the variable as it is. *)
Lemma scan_quoted_skip : forall key open_ line cur,
  holds_value open_ line = false -> scan_quoted key open_ line cur = cur.
Proof.
  intros key open_ line cur H. unfold holds_value in H. unfold scan_quoted.
  destruct (contains line key); [|reflexivity].
  destruct (find open_ line) as [st|]; [|reflexivity].
  destruct (find quote _); [discriminate | reflexivity].
Qed.

Lemma fold_skip : forall key open_ ls cur,
  forallb (fun l => negb (holds_value open_ l)) ls = true ->
  fold_left (fun acc l => scan_quoted key open_ l acc) ls cur = cur.
Proof.
  induction ls as [|l ls IH]; intros cur H; [reflexivity|].
  simpl in H. apply andb_prop in H as [H1 H2]. apply negb_true_iff in H1.
  simpl. rewrite scan_quoted_skip by exact H1. apply IH; exact H2.
Qed.

Lemma prefix_app_short : forall p x y,
  prefix p (x ++ y) = true -> String.length p <= String.length x -> prefix p x = true.
Proof.
  induction p as [|c p IH]; intros x y H L; [destruct x; reflexivity|].
  destruct x as [|d x]; simpl in L; [lia|].
  simpl in H |- *. destruct (ascii_dec c d); [|exact H].
  apply (IH x y H). lia.
Qed.

Lemma contains_cons : forall c s pat, contains s pat = true -> contains (String c s) pat = true.
Proof. intros c s pat H. exact (contains_app_r (String c EmptyString) s pat H). Qed.

Lemma find_first_border : forall k c L rest,
  contains (L ++ k) (k ++ String c EmptyString) = false ->
  find (k ++ String c EmptyString) (L ++ k ++ String c rest) = Some (String.length L).
Proof.
  intros k c. induction L as [|d L IH]; intros rest H.
  - apply find_prefix_zero.
    change (EmptyString ++ k ++ String c rest) with (k ++ (String c EmptyString ++ rest)).
    rewrite <- append_assoc. apply prefix_app_same.
  - rewrite find_unfold.
    destruct (prefix (k ++ String c EmptyString) (String d L ++ k ++ String c rest)) eqn:P.
    + exfalso. change (String d L ++ k ++ String c rest) with (String d (L ++ k ++ String c rest)) in P.
      rewrite <- (append_assoc L k (String c rest)) in P.
      change (String d ((L ++ k) ++ String c rest)) with ((String d (L ++ k)) ++ String c rest) in P.
      apply prefix_app_short in P.
      * assert (C : contains (String d (L ++ k)) (k ++ String c EmptyString) = true)
          by exact (prefix_find _ _ 0 P).
        change (String d L ++ k) with (String d (L ++ k)) in H. congruence.
      * rewrite !length_app. simpl. rewrite length_app. lia.
    + cbn [append]. rewrite IH; [reflexivity|].
      destruct (contains (L ++ k) (k ++ String c EmptyString)) eqn:C; [|reflexivity].
      apply (contains_cons d) in C. change (String d L ++ k) with (String d (L ++ k)) in H. congruence.
Qed.

Lemma contains_self : forall k, contains k k = true.
Proof. intros k. unfold contains. rewrite find_prefix_zero by apply prefix_refl. reflexivity. Qed.

Lemma scan_piece : forall k L v F cur,
  contains (L ++ k) (k ++ quote) = false -> no_dquote v = true ->
  scan_quoted k (k ++ quote) (L ++ k ++ quote ++ v ++ quote ++ F) cur = v.
Proof.
  intros k L v F cur H Hv. unfold scan_quoted.
  assert (Hc : contains (L ++ k ++ quote ++ v ++ quote ++ F) k = true)
    by (apply contains_app_r, contains_app_l, contains_self).
  rewrite Hc. unfold quote in *. cbn [append].
  rewrite (find_first_border k dquote L (v ++ String dquote F) H).
  assert (D : drop (String.length L + String.length (k ++ String dquote EmptyString))
                (L ++ k ++ String dquote (v ++ String dquote F)) = v ++ String dquote F).
  { rewrite <- drop_drop, drop_app.
    change (k ++ String dquote (v ++ String dquote F))
      with (k ++ (String dquote EmptyString ++ (v ++ String dquote F))).
    rewrite <- append_assoc, drop_app. reflexivity. }
  rewrite D.
  rewrite (find_quote_step "" v F Hv).
  replace (prefix "" F) with true by (destruct F; reflexivity).
  unfold slice. rewrite substring_drop.
  rewrite Nat.add_sub_swap, Nat.sub_diag, Nat.add_0_l by lia.
  rewrite D.
  rewrite substring_prefix by lia. rewrite Nat.sub_diag. destruct (String dquote F); apply append_nil_r.
Qed.

Lemma fold_scan_line_split : forall ls a b,
  fold_left scan_line ls (a, b) =
  (fold_left (fun acc l => scan_quoted message_key message_open l acc) ls a,
   fold_left (fun acc l => scan_quoted path_key path_open l acc) ls b).
Proof. induction ls as [|l ls IH]; intros a b; [reflexivity|]. simpl. apply IH. Qed.

Lemma split_sub : forall c s,
  (exists b, s = hd EmptyString (split c s) ++ b) /\
  (forall l, In l (split c s) -> exists a b, s = a ++ l ++ b).
Proof.
  intros c s. induction s as [|x s IH].
  - split; [exists EmptyString; reflexivity|].
    intros l [<-|[]]. exists EmptyString, EmptyString. reflexivity.
  - destruct IH as [[b Hb] Hin]. cbn [split].
    destruct (split_nonempty c s) as (r & rs & E). rewrite E in Hb, Hin. cbn [hd] in Hb.
    destruct (Ascii.eqb x c).
    + split; [exists (String x s); reflexivity|].
      intros l [<-|H]; [exists EmptyString, (String x s); reflexivity|].
      rewrite E in H. destruct (Hin l H) as (a & b' & Ea). exists (String x a), b'. rewrite Ea. reflexivity.
    + rewrite E. split; [exists b; cbn [hd]; rewrite Hb; reflexivity|].
      intros l [<-|H].
      * exists EmptyString, b. rewrite Hb. reflexivity.
      * destruct (Hin l (or_intror H)) as (a & b' & Ea). exists (String x a), b'.
        rewrite Ea. reflexivity.
Qed.

Lemma holds_value_absent : forall open_ l, contains l open_ = false -> holds_value open_ l = false.
Proof. intros open_ l H. unfold holds_value. rewrite contains_false by exact H. reflexivity. Qed.

Lemma pieces_absent : forall text open_, contains text open_ = false ->
  forallb (fun l => negb (holds_value open_ l)) (split ","%char text) = true.
Proof.
  intros text open_ H. apply forallb_forall. intros l Hl.
  destruct (proj2 (split_sub ","%char text) l Hl) as (a & b & E).
  rewrite holds_value_absent; [reflexivity|].
  destruct (contains l open_) eqn:C; [|reflexivity].
  apply (contains_app_l l b), (contains_app_r a) in C. rewrite <- E in C. congruence.
Qed.

Lemma message_open_eq : message_open = message_key ++ quote.
Proof. reflexivity. Qed.

Lemma path_open_eq : path_open = path_key ++ quote.
Proof. reflexivity. Qed.

(* ================================================================== *)
(** * The claims *)

(** C8: on the success path the output returned to the caller is the one
    first deserialized from the engine's result value: the reshaping
    through [ExcedenciaOutput] changes nothing, whatever the value. *)
Theorem evaluate_success_keeps_output : forall result_value,
  evaluate_success result_value = deserialize_ExcedenciaResponse result_value.
Proof.
  intros v. unfold evaluate_success.
  destruct (deserialize_ExcedenciaResponse v) as [r|e] eqn:E; [|reflexivity].
  apply reshape_output_id. eapply deserialize_response_range; eauto.
Qed.

(** C9: the tool handler always returns [Ok]: a failed blocking task
    (a [JoinError], e.g. when the inner runtime cannot be created and
    [unwrap] panics) gives the report [Error interno: ...], which differs
    from every report made for a joined task (validation, engine,
    serialization failure or success). *)
Theorem evaluar_supuesto_excedencia_internal_error :
  forall load_decision decision_evaluate runtime_new panic_join_error to_string_pretty,
  (forall direct_params, exists r,
     evaluar_supuesto_excedencia load_decision decision_evaluate runtime_new
       panic_join_error to_string_pretty direct_params = Ok r) /\
  (forall join_error,
     tool_result to_string_pretty (JoinErr join_error) =
     Ok (tool_error ["Error interno: " ++ join_error])) /\
  (forall join_error eval_result,
     tool_result to_string_pretty (JoinErr join_error) <>
     tool_result to_string_pretty (JoinOk eval_result)) /\
  (forall direct_params e, runtime_new = Err e ->
     evaluar_supuesto_excedencia load_decision decision_evaluate runtime_new
       panic_join_error to_string_pretty direct_params =
     Ok (tool_error ["Error interno: " ++ panic_join_error])).
Proof.
  intros ld de rn pj tsp. split; [|split; [|split]].
  - intros d. unfold evaluar_supuesto_excedencia, tool_result.
    destruct (spawn_blocking pj (blocking_task ld de rn (shape_request d))) as [[r|e]|je].
    + destruct (tsp r); eexists; reflexivity.
    + eexists; reflexivity.
    + eexists; reflexivity.
  - intros je. reflexivity.
  - intros je [r|e]; simpl.
    + destruct (tsp r); intros H; inversion H.
    + destruct e; simpl; intros H; inversion H.
  - intros d e He. unfold evaluar_supuesto_excedencia, blocking_task.
    rewrite He. reflexivity.
Qed.

(** C5: [deserialize_bool_or_string] passes a boolean through; a string
    gives [true] or [false] exactly when its lowercase form is ["true"] or
    ["false"] (so ["true"], ["True"], ["TRUE"] give [true], ["false"] gives
    [false]); any other string is an error whose message ends with the
    string itself (["maybe"] fails); [null] is refused, and so is an
    object of parameters without [familia_monoparental]. *)
Theorem deserialize_bool_or_string_spec :
  (forall b, deserialize_bool_or_string (Bool b) = Ok b) /\
  (forall s, deserialize_bool_or_string (Str s) = Ok true <-> to_lowercase s = "true") /\
  (forall s, deserialize_bool_or_string (Str s) = Ok false <-> to_lowercase s = "false") /\
  (forall s, to_lowercase s <> "true" -> to_lowercase s <> "false" ->
     deserialize_bool_or_string (Str s) = Err (Custom ("invalid boolean string: " ++ s))) /\
  deserialize_bool_or_string (Str "true") = Ok true /\
  deserialize_bool_or_string (Str "True") = Ok true /\
  deserialize_bool_or_string (Str "TRUE") = Ok true /\
  deserialize_bool_or_string (Str "false") = Ok false /\
  deserialize_bool_or_string (Str "maybe") = Err (Custom "invalid boolean string: maybe") /\
  deserialize_bool_or_string Null = Err InvalidType /\
  (forall p s, deserialize_ExcedenciaDirectParams
     (Object [("numero_hijos", Null); ("parentesco", Str p); ("situacion", Str s)])
     = Err (MissingField "familia_monoparental")).
Proof.
  split; [reflexivity|].
  split; [|split; [|split]].
  - intros s. simpl. destruct (String.eqb (to_lowercase s) "true") eqn:E.
    + apply String.eqb_eq in E. split; auto.
    + apply String.eqb_neq in E.
      destruct (String.eqb (to_lowercase s) "false"); split; intros H; congruence.
  - intros s. simpl. destruct (String.eqb (to_lowercase s) "true") eqn:E.
    + apply String.eqb_eq in E. split; intros H; [discriminate | congruence].
    + destruct (String.eqb (to_lowercase s) "false") eqn:F.
      * apply String.eqb_eq in F. split; auto.
      * apply String.eqb_neq in F. split; intros H; congruence.
  - intros s Ht Hf. simpl.
    apply String.eqb_neq in Ht, Hf. rewrite Ht, Hf. reflexivity.
  - repeat split; reflexivity.
Qed.

(** C6 (the omission part fails): [deserialize_f64_or_string] maps the
    numbers [3] and [3.0] and the strings ["3"] and ["3.0"] to the same
    [f64] 3, [null] to [None], and refuses ["abc"]; but a parameters
    object that omits [numero_hijos] is refused with a missing-field
    error, the field having [deserialize_with] and no [#[serde(default)]]. *)
Theorem deserialize_f64_or_string_cases :
  deserialize_f64_or_string (Number (PosInt 3)) = Ok (Some (of_Z 3)) /\
  parse_f64 "3.0" = Some (of_Z 3) /\
  deserialize_f64_or_string (Number (Float (of_Z 3))) = Ok (Some (of_Z 3)) /\
  deserialize_f64_or_string (Str "3") = Ok (Some (of_Z 3)) /\
  deserialize_f64_or_string (Str "3.0") = Ok (Some (of_Z 3)) /\
  deserialize_f64_or_string Null = Ok None /\
  deserialize_f64_or_string (Str "abc") = Err (Custom "invalid number string: abc") /\
  deserialize_ExcedenciaDirectParams
    (Object [("familia_monoparental", Bool false); ("numero_hijos", Null);
             ("parentesco", Str "madre"); ("situacion", Str "enfermedad")])
  = Ok {| Direct.parentesco := "madre"; Direct.situacion := "enfermedad";
          Direct.familia_monoparental := false; Direct.numero_hijos := None |} /\
  deserialize_ExcedenciaDirectParams
    (Object [("familia_monoparental", Bool false);
             ("parentesco", Str "madre"); ("situacion", Str "enfermedad")])
  = Err (MissingField "numero_hijos").
Proof. repeat split; vm_compute; reflexivity. Qed.

(** C7 (fails when [numero_hijos] is [None]): shaping the parameters into
    the engine request, serializing it and reading its [input] back as the
    response's echo gives the original fields when [numero_hijos] is a
    finite number; when it is [None] the field is skipped on output and
    the echo cannot be read back (missing field). *)
Theorem input_echo_roundtrip :
  (forall direct_params x, Direct.numero_hijos direct_params = Some x -> is_finite x = true ->
     input_echo direct_params = Ok (Some (input (shape_request direct_params)))) /\
  (forall direct_params, Direct.numero_hijos direct_params = None ->
     input_echo direct_params = Err (MissingField "numero_hijos")).
Proof.
  split.
  - intros [p s f n] x Hn Hx. simpl in Hn. subst n.
    unfold input_echo, shape_request, serialize_ExcedenciaInput, f64_to_value. simpl.
    rewrite Hx. destruct x; try discriminate Hx; reflexivity.
  - intros [p s f n] Hn. simpl in Hn. subst n. reflexivity.
Qed.

(** C10: a fragment cut at the third marker pair begins with the quote
    of ["errors":[], so it is never decoded as a [ValidationErrorDetails];
    hence when neither of the first two start markers occurs, the
    extractor returns what the heuristic scan returns. *)
Theorem third_marker_never_decodes :
  (forall text json_candidate,
     candidate text (marker3, closer_bracket) = Some json_candidate ->
     from_str_details json_candidate = None) /\
  (forall text, find marker1 text = None -> find marker2 text = None ->
     extract_json_from_string text = manual_extract_errors text).
Proof.
  split.
  - intros text c H. apply candidate_starts in H as [r ->].
    rewrite marker3_quote. apply from_str_details_quote.
  - intros text H1 H2.
    unfold extract_json_from_string, extract_loop, patterns.
    rewrite !candidate_none by assumption.
    destruct (candidate text (marker3, closer_bracket)) as [c|] eqn:C; [|reflexivity].
    apply candidate_starts in C as [r ->].
    rewrite marker3_quote, from_str_details_quote.
    destruct (manual_extract_errors text); reflexivity.
Qed.

(** C4: when neither the error's [Debug] text nor (for a node error) the
    [Debug] text of its source contains a start marker or
    [is not one of], no validation issue is recovered, the error is kept
    unchanged as [ZenEngineError], and the tool reports
    [Error al evaluar: Error del motor de decisión: ] followed by the
    error's own [Display] text. *)
Theorem no_marker_engine_error : forall (zen_error : EvaluationError) to_string_pretty,
  salvage_free (ev_debug zen_error) = true ->
  (forall src, ev_node_source_debug zen_error = Some src -> salvage_free src = true) ->
  extract_validation_errors zen_error = None /\
  on_engine_error zen_error = Excedencia.ZenEngineError zen_error /\
  tool_result to_string_pretty (JoinOk (Err (on_engine_error zen_error))) =
  Ok (tool_error ["Error al evaluar: Error del motor de decisión: " ++ ev_display zen_error]).
Proof.
  intros e tsp Hd Hs.
  assert (N : extract_validation_errors e = None).
  { unfold extract_validation_errors, extract_from_node_error, extract_from_error_string.
    destruct (ev_node_source_debug e) as [src|] eqn:E.
    - rewrite salvage_free_none by (apply Hs; reflexivity).
      apply salvage_free_none; exact Hd.
    - apply salvage_free_none; exact Hd. }
  unfold on_engine_error. rewrite N. repeat split; reflexivity.
Qed.

Lemma no_marker_engine_error_witness :
  let e := {| ev_debug := "NodeError { node_id: 1, source: timeout }";
              ev_display := "timeout";
              ev_node_source_debug := Some "timeout" |} in
  salvage_free (ev_debug e) = true /\
  (forall src, ev_node_source_debug e = Some src -> salvage_free src = true) /\
  extract_validation_errors e = None /\
  on_engine_error e = Excedencia.ZenEngineError e /\
  tool_result (fun _ => Ok EmptyString) (JoinOk (Err (on_engine_error e))) =
  Ok (tool_error ["Error al evaluar: Error del motor de decisión: timeout"]).
Proof.
  intros e.
  assert (Hd : salvage_free (ev_debug e) = true) by (vm_compute; reflexivity).
  assert (Hs : forall src, ev_node_source_debug e = Some src -> salvage_free src = true)
    by (intros src H; inversion H; subst; vm_compute; reflexivity).
  split; [exact Hd|]. split; [exact Hs|].
  exact (no_marker_engine_error e (fun _ => Ok EmptyString) Hd Hs).
Defined.

(** C1 (as the code has it): with the fragment of the first marker pair
    found (in the order [{"source":{"errors":], [{"errors":],
    ["errors":[]): if it decodes, its error list is returned; if it does
    not, the heuristic scan runs at once and its result, when it has one,
    is returned before any later pair is tried; with no fragment at all,
    the heuristic scan is the result. *)
Theorem extract_first_candidate : forall text,
  (first_candidate text = None ->
     extract_json_from_string text = manual_extract_errors text) /\
  (forall json_candidate details, first_candidate text = Some json_candidate ->
     from_str_details json_candidate = Some details ->
     extract_json_from_string text = Some (errors (source details))) /\
  (forall json_candidate es, first_candidate text = Some json_candidate ->
     from_str_details json_candidate = None ->
     manual_extract_errors text = Some es ->
     extract_json_from_string text = Some es).
Proof.
  intros text. unfold first_candidate, extract_json_from_string, patterns.
  cbn [first_candidate_in extract_loop].
  destruct (candidate text (marker1, closer_validation)) as [c1|];
  [|destruct (candidate text (marker2, closer_validation)) as [c2|];
  [|destruct (candidate text (marker3, closer_bracket)) as [c3|]]];
  (split; [|split]); intros; try discriminate;
  repeat match goal with H : Some _ = Some _ |- _ => inversion H; subst; clear H end;
  repeat match goal with H : from_str_details _ = _ |- _ => rewrite H end;
  repeat match goal with H : manual_extract_errors _ = _ |- _ => rewrite H end;
  reflexivity.
Qed.

(** Counterexample to C1: the first fragment found does not decode, the
    heuristic then answers with the enum message, although the fragment
    of the second pair decodes to another error list, which is never
    tried. *)
Lemma extract_heuristic_preempts :
  from_str_details (dq "{`source`:{`errors`:0,`type`:`Validation`}") = None /\
  candidate preempted_text (marker1, closer_validation) =
    Some (dq "{`source`:{`errors`:0,`type`:`Validation`}") /\
  candidate preempted_text (marker2, closer_validation) =
    Some (dq "{`errors`:0,`source`:{`errors`:[{`message`:`m`,`path`:`p`}]},`type`:`Validation`}") /\
  option_map (fun d => errors (source d))
    (from_str_details
       (dq "{`errors`:0,`source`:{`errors`:[{`message`:`m`,`path`:`p`}]},`type`:`Validation`}"))
    = Some [{| message := "m"; path := "p" |}] /\
  extract_json_from_string preempted_text =
    Some [{| message := "x is not one of y"; path := "p" |}].
Proof. repeat split; vm_compute; reflexivity. Qed.

(** C3 (as the code has it): the heuristic cuts the text at every comma
    and keeps the last value it finds, so the enum message is recovered
    when it holds no comma and no double quote, when the text between the
    last comma before it and the fragment neither contains
    [message_open] nor ends with [message_key], and when no later comma
    piece holds a complete message value (a [message_open] followed by a
    quote). Then, if no marker-pair fragment decodes, the extractor
    returns exactly one issue with message [m]; its path is the sentinel
    [/input/unknown] when the text has no [path_open]. *)
Theorem manual_extract_enum_message : forall pre m post,
  no_dquote m = true -> no_comma m = true -> contains m enum_phrase = true ->
  contains (last_piece pre ++ message_key) message_open = false ->
  forallb (fun l => negb (holds_value message_open l)) (tl (split ","%char post)) = true ->
  (forall pat c, In pat patterns ->
     candidate (pre ++ message_open ++ m ++ quote ++ post) pat = Some c ->
     from_str_details c = None) ->
  exists pth,
    extract_json_from_string (pre ++ message_open ++ m ++ quote ++ post) =
      Some [{| message := m; path := pth |}] /\
    (contains (pre ++ message_open ++ m ++ quote ++ post) path_open = false ->
     pth = unknown_path).
Proof.
  intros pre m post Hm Hmc Hph Hpre Hpost Hdec.
  set (text := pre ++ message_open ++ m ++ quote ++ post).
  unfold extract_json_from_string. rewrite loop_all_fail by exact Hdec.
  unfold manual_extract_errors.
  assert (Ht : contains text enum_phrase = true)
    by (apply contains_app_r, contains_app_r, contains_app_l; exact Hph).
  rewrite Ht, fold_scan_line_split.
  set (pth := fold_left (fun acc l => scan_quoted path_key path_open l acc) (split ","%char text) "").
  assert (Msg : fold_left (fun acc l => scan_quoted message_key message_open l acc)
                  (split ","%char text) "" = m).
  { destruct (split_app pre) as (A & la & Ea & Eb).
    assert (La : last_piece pre = la)
      by (unfold last_piece; rewrite Ea; apply last_last).
    rewrite La in Hpre.
    unfold text. rewrite Eb.
    rewrite <- (append_assoc m quote post), <- (append_assoc message_open (m ++ quote) post).
    rewrite split_app_nocomma by (rewrite !no_comma_app, Hmc; reflexivity).
    destruct (split_nonempty ","%char post) as (F & B & EF). rewrite EF in Hpost |- *.
    cbn [hd tl] in Hpost |- *.
    rewrite fold_left_app. cbn [fold_left].
    replace (la ++ (message_open ++ m ++ quote) ++ F)
      with (la ++ message_key ++ quote ++ m ++ quote ++ F)
      by (rewrite message_open_eq, !append_assoc; reflexivity).
    rewrite (scan_piece message_key la m F _ Hpre Hm
               : scan_quoted message_key message_open _ _ = m).
    apply fold_skip. exact Hpost. }
  rewrite Msg.
  destruct m as [|c m']; [discriminate Hph|]. cbn [is_empty negb].
  exists (if is_empty pth then unknown_path else pth). split; [reflexivity|].
  intros Hp. unfold pth. rewrite fold_skip by (apply pieces_absent; exact Hp). reflexivity.
Qed.

Lemma manual_extract_enum_message_witness :
  extract_json_from_string
    (dq "{`type`:`Validation`," ++ message_open ++ "x is not one of [a]" ++ quote ++ "}") =
  Some [{| message := "x is not one of [a]"; path := unknown_path |}].
Proof.
  assert (Hd : forall pat c, In pat patterns ->
     candidate (dq "{`type`:`Validation`," ++ message_open ++ "x is not one of [a]" ++ quote ++ "}")
       pat = Some c -> from_str_details c = None).
  { intros pat c Hin Hc. simpl in Hin.
    destruct Hin as [Q|[Q|[Q|[]]]]; subst pat; vm_compute in Hc; discriminate Hc. }
  destruct (manual_extract_enum_message (dq "{`type`:`Validation`,") "x is not one of [a]" "}"
              eq_refl eq_refl eq_refl eq_refl eq_refl Hd) as [pth [E H]].
  rewrite E, H by (vm_compute; reflexivity). reflexivity.
Defined.

(** Counterexample to C3: an enum message whose list holds a comma is
    cut by the comma split, and nothing is recovered. The other texts show
    the other conditions at work: a later complete message replaces the
    enum message, and so does an earlier [message_open] in the same comma
    piece, or a [message_key] written just before the fragment. *)
Lemma comma_message_lost :
  (contains comma_message_text enum_phrase = true /\
   first_candidate comma_message_text = None /\
   extract_json_from_string comma_message_text = None) /\
  (first_candidate later_message_text = None /\
   extract_json_from_string later_message_text =
     Some [{| message := "other"; path := unknown_path |}]) /\
  (first_candidate earlier_message_text = None /\
   extract_json_from_string earlier_message_text =
     Some [{| message := "a "; path := unknown_path |}]) /\
  (first_candidate key_before_message_text = None /\
   extract_json_from_string key_before_message_text =
     Some [{| message := "message"; path := unknown_path |}]).
Proof. repeat split; vm_compute; reflexivity. Qed.

(** C2 (as the code has it): a well-formed fragment
    [{"source":{"errors":[{"message":m,"path":p}]},"type":"Validation"}]
    whose [m] and [p] are plain JSON string contents is recovered as
    [[{message: m, path: p}]] whatever the text after it, and whatever the
    text before it as long as that text does not itself contain the start
    marker [{"source":{"errors":]. *)
Theorem extract_embedded_fragment : forall pre m p post,
  json_plain m = true -> json_plain p = true -> contains pre marker1 = false ->
  extract_json_from_string (pre ++ validation_fragment m p ++ post) =
  Some [{| message := m; path := p |}].
Proof.
  intros pre m p post Hm Hp Hpre.
  unfold extract_json_from_string, patterns. cbn [extract_loop].
  rewrite candidate_marker1, frag_decodes by assumption. reflexivity.
Qed.

Lemma extract_embedded_fragment_witness :
  extract_json_from_string
    (dq "NodeError { source: `" ++ validation_fragment "bad value" "/input/parentesco"
     ++ dq "` }") =
  Some [{| message := "bad value"; path := "/input/parentesco" |}].
Proof. apply extract_embedded_fragment; reflexivity. Defined.

(** Counterexample to C2: noise before the fragment that contains the
    first start marker makes the first candidate span noise and fragment;
    it does not decode, no later pair gives a decodable fragment, the text
    has no [is not one of], and nothing is recovered. *)
Lemma marker_noise_hides_fragment :
  extract_json_from_string (marker_noise ++ validation_fragment "m" "p") = None.
Proof. vm_compute. reflexivity. Qed.

(* ================================================================== *)
(** * Further properties of the code *)

(** X1: whenever the manual scanner of [manual_extract_errors] returns a result, the text mentions the enumeration phrase and the result is exactly one issue whose message and path are both non-empty. *)
Theorem manual_extract_single_issue : forall text l,
  manual_extract_errors text = Some l ->
  contains text enum_phrase = true /\
  exists e, l = [e] /\ message e <> EmptyString /\ path e <> EmptyString.
Proof.
  intros text l H. unfold manual_extract_errors in H.
  destruct (contains text enum_phrase) eqn:C; [|discriminate].
  split; [reflexivity|].
  destruct (fold_left scan_line (split ","%char text) (EmptyString, EmptyString)) as [msg pth].
  destruct (is_empty msg) eqn:Em; [discriminate|]. cbn [negb] in H.
  inversion H; subst l. eexists; split; [reflexivity|]. cbn [message path]. split.
  - intros E. subst msg. discriminate Em.
  - destruct (is_empty pth) eqn:Ep; [discriminate|].
    intros E. subst pth. discriminate Ep.
Qed.

Lemma manual_extract_single_issue_witness :
  contains (dq "error: " ++ message_open ++ "x is not one of [a]" ++ quote ++ ","
            ++ path_open ++ "/input/parentesco" ++ quote ++ "}") enum_phrase = true /\
  exists e, [{| message := "x is not one of [a]"; path := "/input/parentesco" |}] = [e] /\
            message e <> EmptyString /\ path e <> EmptyString.
Proof.
  apply (manual_extract_single_issue
           (dq "error: " ++ message_open ++ "x is not one of [a]" ++ quote ++ ","
            ++ path_open ++ "/input/parentesco" ++ quote ++ "}")).
  vm_compute. reflexivity.
Defined.

(** X2: a quoted message without comma or double quote that contains
    [is not one of], followed after the next comma by a quoted path without
    comma or double quote, is reported by the heuristic scan as one issue
    with that message and that path (the sentinel when the path is empty),
    provided the text between the last comma before the message and the
    message neither contains [message_open] nor ends with [message_key],
    no comma piece from the path on holds a complete message value, and no
    comma piece after the path's holds a complete path value. *)
Theorem manual_extract_message_path : forall pre m p post,
  no_dquote m = true -> no_comma m = true -> contains m enum_phrase = true ->
  no_dquote p = true -> no_comma p = true ->
  contains (last_piece pre ++ message_key) message_open = false ->
  forallb (fun l => negb (holds_value message_open l))
    (split ","%char (path_open ++ p ++ quote ++ post)) = true ->
  forallb (fun l => negb (holds_value path_open l)) (tl (split ","%char post)) = true ->
  manual_extract_errors
    (pre ++ message_open ++ m ++ quote ++ "," ++ path_open ++ p ++ quote ++ post) =
  Some [{| message := m; path := if is_empty p then unknown_path else p |}].
Proof.
  intros pre m p post Hm Hmc Hph Hp Hpc Hpre Hmsg Hpth.
  unfold manual_extract_errors.
  rewrite (contains_app_r pre _ _ (contains_app_r message_open _ _
             (contains_app_l m _ _ Hph))).
  rewrite fold_scan_line_split.
  destruct (split_app pre) as (A & la & Ea & Eb).
  assert (La : last_piece pre = la)
    by (unfold last_piece; rewrite Ea; apply last_last).
  rewrite La in Hpre.
  set (Z := path_open ++ p ++ quote ++ post) in *.
  rewrite Eb.
  replace (message_open ++ m ++ quote ++ "," ++ Z)
    with ((message_open ++ m ++ quote) ++ (String ","%char EmptyString ++ Z))
    by (rewrite !append_assoc; reflexivity).
  rewrite split_app_nocomma by (rewrite !no_comma_app, Hmc; reflexivity).
  cbn [append split Ascii.eqb Bool.eqb hd tl].
  rewrite !fold_left_app. cbn [fold_left].
  replace (la ++ (message_open ++ m ++ quote) ++ "")
    with (la ++ message_key ++ quote ++ m ++ quote ++ "")
    by (rewrite message_open_eq, !append_assoc; reflexivity).
  rewrite (scan_piece message_key la m "" _ Hpre Hm
             : scan_quoted message_key message_open _ _ = m).
  rewrite (fold_skip _ _ _ m Hmsg).
  destruct (split_nonempty ","%char post) as (F & B & EF).
  unfold Z. rewrite <- (append_assoc p quote post), <- (append_assoc path_open (p ++ quote) post).
  rewrite split_app_nocomma by (rewrite !no_comma_app, Hpc; reflexivity).
  rewrite EF in Hpth |- *. cbn [hd tl fold_left] in Hpth |- *.
  replace ((path_open ++ p ++ quote) ++ F)
    with ("" ++ path_key ++ quote ++ p ++ quote ++ F)
    by (rewrite path_open_eq, !append_assoc; reflexivity).
  rewrite (scan_piece path_key "" p F _ eq_refl Hp
             : scan_quoted path_key path_open _ _ = p).
  rewrite (fold_skip _ _ _ p Hpth).
  destruct m as [|c m']; [discriminate Hph|]. reflexivity.
Qed.

Lemma manual_extract_message_path_witness :
  manual_extract_errors
    (dq "{`type`:`Validation`,`errors`:[{" ++ message_open ++ "x is not one of [a]" ++ quote
     ++ "," ++ path_open ++ "/input/parentesco" ++ quote ++ "}]}") =
  Some [{| message := "x is not one of [a]"; path := "/input/parentesco" |}].
Proof. apply manual_extract_message_path; vm_compute; reflexivity. Defined.

(** X3: when the text before it does not contain [marker1], an embedded
    validation envelope whose [source.errors] array is empty is extracted
    as an empty list of issues; a node error whose source renders as such
    a text is turned into a validation error with no issue, and the tool
    answers with an error result holding only the header line. *)
Theorem empty_errors_envelope : forall pre post, contains pre marker1 = false ->
  extract_json_from_string (pre ++ empty_validation_fragment ++ post) = Some [] /\
  forall (zen_error : EvaluationError) to_string_pretty,
    ev_node_source_debug zen_error = Some (pre ++ empty_validation_fragment ++ post) ->
    on_engine_error zen_error = Excedencia.ValidationError [] /\
    tool_result to_string_pretty (JoinOk (Err (on_engine_error zen_error))) =
    Ok (tool_error ["Errores de validación:" ++ nl]).
Proof.
  intros pre post Hpre.
  assert (X : extract_json_from_string (pre ++ empty_validation_fragment ++ post) = Some []).
  { unfold extract_json_from_string, patterns. cbn [extract_loop].
    rewrite candidate_empty_fragment, empty_fragment_decodes by exact Hpre. reflexivity. }
  split; [exact X|]. intros e tsp He.
  assert (V : on_engine_error e = Excedencia.ValidationError []).
  { unfold on_engine_error, extract_validation_errors, extract_from_node_error.
    rewrite He, X. reflexivity. }
  split; [exact V|]. rewrite V. cbn -[append]. rewrite append_nil_r. reflexivity.
Qed.

Lemma empty_errors_envelope_witness :
  extract_json_from_string (dq "NodeError { source: `" ++ empty_validation_fragment ++ dq "` }")
  = Some [].
Proof. apply (proj1 (empty_errors_envelope (dq "NodeError { source: `") (dq "` }") eq_refl)). Defined.

(** X4: a one-issue envelope whose [errors] array sits at the top level,
    without [source] ([errors_fragment m p], with [m] and [p] plain JSON
    string contents), never decodes as validation details: when the text
    before it does not contain [marker2] and the text has no [marker1], the
    extractor returns what the heuristic scan returns. *)
Theorem errors_pattern_never_decodes : forall pre m p post,
  json_plain m = true -> json_plain p = true -> contains pre marker2 = false ->
  contains (pre ++ errors_fragment m p ++ post) marker1 = false ->
  extract_json_from_string (pre ++ errors_fragment m p ++ post) =
  manual_extract_errors (pre ++ errors_fragment m p ++ post).
Proof.
  intros pre m p post Hm Hp Hpre H1.
  unfold extract_json_from_string, patterns. cbn [extract_loop].
  rewrite candidate_none by (apply contains_false; exact H1).
  rewrite candidate_marker2, errors_frag_fails by assumption.
  destruct (manual_extract_errors _) as [es|] eqn:M; [reflexivity|].
  destruct (candidate _ (marker3, closer_bracket)) as [c|] eqn:C; [|reflexivity].
  rewrite (marker3_fails _ _ C). reflexivity.
Qed.

Lemma errors_pattern_never_decodes_witness :
  extract_json_from_string
    (dq "NodeError { source: `" ++ errors_fragment "bad value" "/input/parentesco" ++ dq "` }")
  = None.
Proof.
  rewrite errors_pattern_never_decodes by (vm_compute; reflexivity).
  vm_compute. reflexivity.
Defined.

(** X5: when the decision loads, the runtime starts and the engine fails
    with a node error whose source (or, lacking one, whose debug text)
    embeds the one-issue validation envelope, with a message and a path
    that are plain JSON string contents (no quote, backslash or control
    character) and no [marker1] before the envelope, the tool answers with
    an error result listing that field and message. *)
Theorem node_error_validation_report :
  forall load_decision decision_evaluate runtime_new panic_join_error to_string_pretty
         direct_params zen_error u w pre m p post,
  load_decision = Ok u -> runtime_new = Ok w ->
  decision_evaluate (serialize_ExcedenciaRequest (shape_request direct_params)) = Err zen_error ->
  (ev_node_source_debug zen_error = Some (pre ++ validation_fragment m p ++ post) \/
   (ev_node_source_debug zen_error = None /\
    ev_debug zen_error = pre ++ validation_fragment m p ++ post)) ->
  json_plain m = true -> json_plain p = true -> contains pre marker1 = false ->
  evaluar_supuesto_excedencia load_decision decision_evaluate runtime_new
    panic_join_error to_string_pretty direct_params =
  Ok (tool_error ["Errores de validación:" ++ nl ++ "  - Campo '" ++ p ++ "': " ++ m ++ nl]).
Proof.
  intros ld de rn pj tsp d e u w pre m p post Hl Hr He Hs Hm Hp Hpre.
  assert (V : on_engine_error e = Excedencia.ValidationError [{| message := m; path := p |}]).
  { unfold on_engine_error, extract_validation_errors, extract_from_node_error,
      extract_from_error_string.
    destruct Hs as [Hs | [Hs Hd]]; rewrite Hs; [|rewrite Hd];
      rewrite fragment_extracted by assumption; reflexivity. }
  unfold evaluar_supuesto_excedencia, blocking_task, evaluate_excedencia.
  rewrite Hr, Hl, He, V. reflexivity.
Qed.

Lemma node_error_validation_report_witness :
  let d := {| Direct.parentesco := "hermano"; Direct.situacion := "parto";
              Direct.familia_monoparental := false; Direct.numero_hijos := None |} in
  let e := {| ev_debug := "NodeError";
              ev_display := "node error";
              ev_node_source_debug :=
                Some (dq "Validation(`" ++ validation_fragment "not allowed" "/input/parentesco"
                      ++ dq "`)") |} in
  evaluar_supuesto_excedencia (Ok tt) (fun _ => Err e) (Ok tt) "panic"
    (fun _ => Ok "{}") d =
  Ok (tool_error ["Errores de validación:" ++ nl ++ "  - Campo '" ++ "/input/parentesco" ++ "': "
                  ++ "not allowed" ++ nl]).
Proof.
  intros d e.
  apply (node_error_validation_report _ _ _ _ _ d e tt tt (dq "Validation(`") _ _ (dq "`)"));
    try reflexivity.
  left. reflexivity.
Defined.

(** X6: a tool result always has exactly one content item, and it is flagged as a success exactly when the blocking task returned a response that serialized to that item. *)
Theorem tool_result_error_flag :
  forall load_decision decision_evaluate runtime_new panic_join_error to_string_pretty
         direct_params r,
  evaluar_supuesto_excedencia load_decision decision_evaluate runtime_new
    panic_join_error to_string_pretty direct_params = Ok r ->
  length (content r) = 1 /\
  (is_error r = false <->
   exists response json_str,
     blocking_task load_decision decision_evaluate runtime_new (shape_request direct_params)
       = Some (Ok response) /\
     to_string_pretty response = Ok json_str /\ content r = [json_str]).
Proof.
  intros ld de rn pj tsp d r H.
  unfold evaluar_supuesto_excedencia, spawn_blocking in H.
  destruct (blocking_task ld de rn (shape_request d)) as [[resp|e]|] eqn:B.
  - unfold tool_result in H. destruct (tsp resp) as [js|err] eqn:T; inversion H; subst; clear H.
    + split; [reflexivity|]. split; [intros _; eauto | reflexivity].
    + split; [reflexivity|]. split; [discriminate|].
      intros (resp' & js & B' & T' & _). inversion B'; subst. congruence.
  - unfold tool_result in H. inversion H; subst; clear H.
    split; [reflexivity|]. split; [discriminate|].
    intros (resp' & js & B' & _). discriminate B'.
  - unfold tool_result in H. inversion H; subst; clear H.
    split; [reflexivity|]. split; [discriminate|].
    intros (resp' & js & B' & _). discriminate B'.
Qed.

Lemma tool_result_error_flag_witness :
  let d := {| Direct.parentesco := "madre"; Direct.situacion := "parto";
              Direct.familia_monoparental := false; Direct.numero_hijos := None |} in
  let e := {| ev_debug := "timeout"; ev_display := "timeout"; ev_node_source_debug := None |} in
  length (content (tool_error ["Error al evaluar: Error del motor de decisión: timeout"])) = 1 /\
  (is_error (tool_error ["Error al evaluar: Error del motor de decisión: timeout"]) = false <->
   exists response json_str,
     blocking_task (Ok tt) (fun _ => Err e) (Ok tt) (shape_request d) = Some (Ok response) /\
     (fun _ : Response.ExcedenciaResponse => Ok "{}" : result string string) response = Ok json_str /\
     content (tool_error ["Error al evaluar: Error del motor de decisión: timeout"]) = [json_str]).
Proof.
  intros d e.
  apply (tool_result_error_flag (Ok tt) (fun _ => Err e) (Ok tt) "panic" (fun _ => Ok "{}") d).
  reflexivity.
Defined.

(** X7: a non-empty string of decimal digits, with an optional sign, is accepted for [numero_hijos] as the integer it spells, and so is a JSON unsigned integer. *)
Theorem numeric_string_as_integer : forall s, s <> EmptyString -> all_chars Json.is_digit s = true ->
  deserialize_f64_or_string (Str s) = Ok (Some (of_Z (digits_value 0 s))) /\
  deserialize_f64_or_string (Str ("+" ++ s)) = Ok (Some (of_Z (digits_value 0 s))) /\
  deserialize_f64_or_string (Str ("-" ++ s)) =
    Ok (Some (if (digits_value 0 s =? 0)%Z then S754_zero true else of_Z (- digits_value 0 s))) /\
  deserialize_f64_or_string (Number (PosInt (digits_value 0 s))) =
    Ok (Some (of_Z (digits_value 0 s))).
Proof.
  intros s Hne H.
  destruct (of_decimal_int (digits_value 0 s)) as [Ep Em]; [apply digits_value_nonneg; [lia|exact H]|].
  destruct (parse_f64_signed s Hne H) as [Pp Pm].
  unfold deserialize_f64_or_string.
  rewrite (parse_f64_digits s Hne H), Pp, Pm, Ep, Em. repeat split.
Qed.

Lemma numeric_string_as_integer_witness :
  deserialize_f64_or_string (Str "03") = Ok (Some (of_Z 3)).
Proof. exact (proj1 (numeric_string_as_integer "03" ltac:(discriminate) eq_refl)). Defined.

(** X8: a [numero_hijos] string with a space after its digits, and the empty string, are refused with an invalid-number error. *)
Theorem numero_hijos_space_refused : forall s r, all_chars Json.is_digit s = true ->
  deserialize_f64_or_string (Str (s ++ String " " r)) =
  Err (Custom ("invalid number string: " ++ s ++ String " " r)) /\
  deserialize_f64_or_string (Str EmptyString) = Err (Custom "invalid number string: ").
Proof.
  intros s r H. split; [|reflexivity].
  unfold deserialize_f64_or_string. rewrite parse_f64_space by exact H. reflexivity.
Qed.

Lemma numero_hijos_space_refused_witness :
  deserialize_f64_or_string (Str "3 ") = Err (Custom "invalid number string: 3 ").
Proof. exact (proj1 (numero_hijos_space_refused "3" "" eq_refl)). Defined.

(** X9: the strings inf, infinity and nan (in any case) are accepted for [numero_hijos] as non-finite numbers, which the engine request then carries as null and the echoed input drops. *)
Theorem nonfinite_numero_hijos_sent_as_null :
  (forall s, In (to_lowercase s) ["inf"; "infinity"; "nan"] ->
     exists x, deserialize_f64_or_string (Str s) = Ok (Some x) /\ is_finite x = false) /\
  (forall direct_params x, Direct.numero_hijos direct_params = Some x -> is_finite x = false ->
     serialize_ExcedenciaRequest (shape_request direct_params) =
     Object [("input", Object
       [("familia_monoparental", Bool (Direct.familia_monoparental direct_params));
        ("numero_hijos", Null);
        ("parentesco", Str (Direct.parentesco direct_params));
        ("situacion", Str (Direct.situacion direct_params))])] /\
     input_echo direct_params =
     Ok (Some {| Input.parentesco := Direct.parentesco direct_params;
                 Input.situacion := Direct.situacion direct_params;
                 Input.familia_monoparental := Direct.familia_monoparental direct_params;
                 Input.numero_hijos := None |})).
Proof.
  split.
  - intros [|c r] H; [simpl in H; intuition discriminate|].
    assert (Hs : Ascii.eqb c "+"%char = false /\ Ascii.eqb c "-"%char = false).
    { split; destruct (Ascii.eqb c _) eqn:E; try reflexivity;
        apply Ascii.eqb_eq in E; subst c; simpl in H; intuition discriminate. }
    unfold deserialize_f64_or_string, parse_f64.
    rewrite sign_default by (apply Hs). cbn beta iota zeta.
    destruct H as [E|[E|[E|[]]]]; rewrite <- E; cbn; eexists; split; reflexivity.
  - intros [p s f n] x Hn Hx. simpl in Hn. subst n.
    unfold input_echo, serialize_ExcedenciaRequest, shape_request, serialize_ExcedenciaInput,
      f64_to_value.
    destruct x; try discriminate Hx; split; reflexivity.
Qed.

Lemma nonfinite_numero_hijos_sent_as_null_witness :
  exists x, deserialize_f64_or_string (Str "NaN") = Ok (Some x) /\ is_finite x = false.
Proof. apply (proj1 nonfinite_numero_hijos_sent_as_null). simpl. auto. Defined.

(** X10: a key other than the four parameter names is ignored when deserializing the direct parameters. *)
Theorem direct_params_ignore_unknown_keys : forall k v m,
  ~ In k ["parentesco"; "situacion"; "familia_monoparental"; "numero_hijos"] ->
  deserialize_ExcedenciaDirectParams (Object ((k, v) :: m)) =
  deserialize_ExcedenciaDirectParams (Object m).
Proof.
  intros k v m H. cbn [In] in H.
  unfold deserialize_ExcedenciaDirectParams, de_excedencia_fields, required.
  rewrite !lookup_skip by (intros E; subst k; tauto). reflexivity.
Qed.

Lemma direct_params_ignore_unknown_keys_witness :
  deserialize_ExcedenciaDirectParams
    (Object [("edad", Number (PosInt 40)); ("familia_monoparental", Str "TRUE");
             ("numero_hijos", Str "2"); ("parentesco", Str "madre"); ("situacion", Str "parto")]) =
  deserialize_ExcedenciaDirectParams
    (Object [("familia_monoparental", Str "TRUE");
             ("numero_hijos", Str "2"); ("parentesco", Str "madre"); ("situacion", Str "parto")]).
Proof. apply direct_params_ignore_unknown_keys. simpl. intuition discriminate. Defined.

(** X11: an engine output holding only the four required fields gets empty requirements, errors and warnings, and no input or kinship flag, in the response. *)
Theorem engine_output_defaults : forall m om d i s t,
  lookup "output" m = Some (Object om) ->
  lookup "input" m = None -> lookup "parentesco_valido" m = None ->
  lookup "descripcion" om = Some (Str d) ->
  lookup "importe_mensual" om = Some (i32_to_value i) -> i32_in_range i = true ->
  lookup "supuesto" om = Some (Str s) ->
  lookup "tiene_derecho_potencial" om = Some (Bool t) ->
  lookup "requisitos_adicionales" om = None ->
  lookup "errores" om = None -> lookup "advertencias" om = None ->
  evaluate_success (Object m) =
  Ok {| Response.output :=
          {| Schema.descripcion := d; Schema.importe_mensual := i;
             Schema.requisitos_adicionales := EmptyString; Schema.supuesto := s;
             Schema.tiene_derecho_potencial := t; Schema.errores := [];
             Schema.advertencias := [] |};
        Response.input := None; Response.parentesco_valido := None |}.
Proof.
  intros m om d i s t Ho Hi Hp Hd Him Hr Hs Ht Hra He Ha.
  unfold evaluate_success, deserialize_ExcedenciaResponse, required, defaulted.
  rewrite Ho, Hi, Hp.
  unfold deserialize_ExcedenciaOutputForSchema, de_output_fields, required, defaulted.
  rewrite Hd, Him, Hs, Ht, Hra, He, Ha, de_i32_to_value by exact Hr.
  apply reshape_output_id. exact Hr.
Qed.

Lemma engine_output_defaults_witness :
  evaluate_success
    (Object [("output", Object [("descripcion", Str "Supuesto A");
                                ("importe_mensual", Number (PosInt 725));
                                ("supuesto", Str "A");
                                ("tiene_derecho_potencial", Bool true)])]) =
  Ok {| Response.output :=
          {| Schema.descripcion := "Supuesto A"; Schema.importe_mensual := 725;
             Schema.requisitos_adicionales := EmptyString; Schema.supuesto := "A";
             Schema.tiene_derecho_potencial := true; Schema.errores := [];
             Schema.advertencias := [] |};
        Response.input := None; Response.parentesco_valido := None |}.
Proof. eapply engine_output_defaults; reflexivity. Defined.

(** X12: an engine output whose [importe_mensual] is missing, a float, or an integer out of the 32-bit range makes [evaluate_excedencia] fail with a serialization error. *)
Theorem importe_not_i32_is_serialization_error :
  forall load_decision decision_evaluate request u m om,
  load_decision = Ok u ->
  decision_evaluate (serialize_ExcedenciaRequest request) = Ok (Object m) ->
  lookup "output" m = Some (Object om) ->
  (lookup "importe_mensual" om = None \/
   (exists f, lookup "importe_mensual" om = Some (Number (Float f))) \/
   (exists z, (lookup "importe_mensual" om = Some (Number (PosInt z)) \/
               lookup "importe_mensual" om = Some (Number (NegInt z))) /\
              i32_in_range z = false)) ->
  exists msg, evaluate_excedencia load_decision decision_evaluate request =
              Err (Excedencia.SerializationError msg).
Proof.
  intros ld de req u m om Hl He Ho Hi.
  assert (Eo : exists err, de_output_fields (Object om) = Err err).
  { unfold de_output_fields, required at 1.
    destruct (lookup "descripcion" om) as [vd|]; [|eauto].
    destruct (de_String vd) as [dsc|err]; [|eauto].
    unfold required.
    destruct Hi as [Hi | [[f Hi] | [z [[Hi|Hi] Hz]]]]; rewrite Hi; cbn [de_i32]; try rewrite Hz; eauto. }
  destruct Eo as [err Eo].
  unfold evaluate_excedencia. rewrite Hl, He.
  unfold evaluate_success, deserialize_ExcedenciaResponse, required at 1.
  rewrite Ho. unfold deserialize_ExcedenciaOutputForSchema. rewrite Eo. eauto.
Qed.

Lemma importe_not_i32_is_serialization_error_witness :
  exists msg, evaluate_excedencia (Ok tt)
    (fun _ => Ok (Object [("output", Object [("descripcion", Str "Supuesto A");
                                              ("importe_mensual", Number (Float (of_Z 725)))])]))
    {| input := {| Input.parentesco := "madre"; Input.situacion := "enfermedad";
                   Input.familia_monoparental := false; Input.numero_hijos := Some (of_Z 1) |} |}
  = Err (Excedencia.SerializationError msg).
Proof.
  eapply (importe_not_i32_is_serialization_error _ _ _ tt); try reflexivity.
  right. left. eexists. reflexivity.
Defined.

(** X13: when the decision loads, the runtime starts and the engine's
    result object has none of the keys [output], [input] and
    [parentesco_valido], the tool answers with an error result naming the
    missing field [output]. *)
Theorem missing_output_report :
  forall load_decision decision_evaluate runtime_new panic_join_error to_string_pretty
         direct_params u w m,
  load_decision = Ok u -> runtime_new = Ok w ->
  decision_evaluate (serialize_ExcedenciaRequest (shape_request direct_params)) = Ok (Object m) ->
  lookup "output" m = None -> lookup "input" m = None -> lookup "parentesco_valido" m = None ->
  evaluar_supuesto_excedencia load_decision decision_evaluate runtime_new
    panic_join_error to_string_pretty direct_params =
  Ok (tool_error ["Error al evaluar: Error de serialización: missing field `output`"]).
Proof.
  intros ld de rn pj tsp d u w m Hl Hr He Ho Hi Hp.
  unfold evaluar_supuesto_excedencia, blocking_task, evaluate_excedencia.
  rewrite Hr, Hl, He.
  unfold evaluate_success, deserialize_ExcedenciaResponse, required. rewrite Ho.
  reflexivity.
Qed.

Lemma missing_output_report_witness :
  evaluar_supuesto_excedencia (Ok tt) (fun _ => Ok (Object [("result", Null)])) (Ok tt) "panic"
    (fun _ => Ok "{}")
    {| Direct.parentesco := "madre"; Direct.situacion := "enfermedad";
       Direct.familia_monoparental := false; Direct.numero_hijos := Some (of_Z 1) |} =
  Ok (tool_error ["Error al evaluar: Error de serialización: missing field `output`"]).
Proof. apply (missing_output_report _ _ _ _ _ _ tt tt [("result", Null)]); reflexivity. Defined.
